(** * release-changelog-builder: the changelog assembly of [src/transform.ts]

  A shallow embedding of [buildChangelog] and of the helpers of
  [transform.ts], followed by the properties of the reference linker, the
  deduplicator, the classifier and the placeholder engine.

  Conventions of the embedding.
  - JavaScript strings are [string]; arrays are [list]; [undefined]/[null]
    is [None].
  - A JavaScript [Map] iterates in insertion order and [set] on a present
    key keeps the key's position: it is an association list ([JsMap]).
  - Pull requests are objects that the code mutates in place ([childPrs]
    is attached by the reference linker, [labels] grows in the label
    extractor) and that are held by several arrays and maps at once.  They
    live in a [Heap] and are passed around by reference ([ref]).
  - Regular expressions, dates, locale functions and the modules of the
    repository that [transform.ts] imports are the fields of the class
    [Host]; everything is stated for an arbitrary host.
  - Logging ([core.info], [core.debug], [core.warning]) and the output
    [categorized], a JSON text of the lists of the categories, are left
    out; the counts handed to [core.setOutput] are part of the result. *)

From Stdlib Require Import String Ascii List ZArith Arith Bool Lia Permutation.
From Stdlib Require Import DecimalString DecimalZ.
Import ListNotations.

Local Open Scope string_scope.
Local Open Scope list_scope.

Set Implicit Arguments.

(* ===================================================================== *)
(** ** JavaScript built-ins on strings and arrays                         *)
(* ===================================================================== *)

Module Js.

(** Truthiness of a string: the empty string is falsy. *)
Definition truthy (s : string) : bool := negb (s =? "")%string.

(** [a || b] on strings. *)
Definition or_else (a b : string) : string := if truthy a then a else b.

(** [Number.prototype.toString] on integers. *)
Definition toString (z : Z) : string := NilZero.string_of_int (Z.to_int z).

Definition natToString (n : nat) : string := toString (Z.of_nat n).

(** [Array.prototype.join]: the separator goes between the elements. *)
Fixpoint join (sep : string) (l : list string) : string :=
  match l with
  | [] => ""
  | [x] => x
  | x :: rest => (x ++ sep ++ join sep rest)%string
  end.

(** [s.startsWith(p)]. *)
Fixpoint startsWith (p s : string) : bool :=
  match p, s with
  | EmptyString, _ => true
  | String a p', String b s' => Ascii.eqb a b && startsWith p' s'
  | String _ _, EmptyString => false
  end.

(** [GetSubstitution] of ECMA-262 for a search by string (no capture
    groups): [$$] is a dollar, [$&] the matched text, [$`] the text before
    the match, [$'] the text after it; any other [$] stands for itself. *)
Fixpoint getSubstitution (matched before after repl : string) : string :=
  match repl with
  | EmptyString => ""
  | String c rest =>
      if Ascii.eqb c "$" then
        match rest with
        | EmptyString => "$"
        | String d rest' =>
            if Ascii.eqb d "$" then String "$" (getSubstitution matched before after rest')
            else if Ascii.eqb d "&" then (matched ++ getSubstitution matched before after rest')%string
            else if Ascii.eqb d "`" then (before ++ getSubstitution matched before after rest')%string
            else if Ascii.eqb d "'" then (after ++ getSubstitution matched before after rest')%string
            else String "$" (getSubstitution matched before after rest)
        end
      else String c (getSubstitution matched before after rest)
  end.

(** The text that follows the first [n] characters. *)
Fixpoint drop (n : nat) (s : string) : string :=
  match n, s with
  | O, _ => s
  | S n', String _ s' => drop n' s'
  | S _, EmptyString => ""
  end.

(** The scan of [String.prototype.replaceAll(search, repl)] with a string
    [search]: [before] is the text already passed, [skip] the number of
    characters of the current occurrence still to pass over. The
    occurrences are the leftmost ones that do not overlap. *)
Fixpoint replaceAllFrom (search repl before : string) (skip : nat) (s : string) : string :=
  match s with
  | EmptyString =>
      match search with
      | EmptyString => getSubstitution "" before "" repl
      | _ => ""
      end
  | String c s' =>
      match skip with
      | S k => replaceAllFrom search repl (before ++ String c "") k s'
      | O =>
          if startsWith search s then
            let sub := getSubstitution search before (drop (String.length search) s) repl in
            match search with
            | EmptyString =>
                (sub ++ String c (replaceAllFrom search repl (before ++ String c "") 0 s'))%string
            | _ =>
                (sub ++ replaceAllFrom search repl (before ++ String c "")
                                       (String.length search - 1) s')%string
            end
          else String c (replaceAllFrom search repl (before ++ String c "") 0 s')
      end
  end.

Definition replaceAll (s search repl : string) : string :=
  replaceAllFrom search repl "" 0 s.


End Js.

(* ===================================================================== *)
(** ** JavaScript [Map]: insertion-ordered, [set] updates in place        *)
(* ===================================================================== *)

Module JsMap.
Section JsMap.
Variables K V : Type.
Variable eqb : K -> K -> bool.

Definition t := list (K * V).

Definition empty : t := [].

Fixpoint get (k : K) (m : t) : option V :=
  match m with
  | [] => None
  | (k', v) :: m' => if eqb k k' then Some v else get k m'
  end.

Fixpoint set (k : K) (v : V) (m : t) : t :=
  match m with
  | [] => [(k, v)]
  | (k', v') :: m' => if eqb k k' then (k', v) :: m' else (k', v') :: set k v m'
  end.

Definition keys (m : t) : list K := map fst m.
Definition values (m : t) : list V := map snd m.

End JsMap.
End JsMap.

(* ===================================================================== *)
(** ** The host: regular expressions and the imported modules             *)
(* ===================================================================== *)

(** A reference to a pull-request object. *)
Definition ref := nat.

(** A moment of time ([moment.Moment]), as milliseconds since the epoch. *)
Definition Date := Z.

(** A property name of a pull request ([Property] of the configuration). *)
Definition Property := string.

(** The regular expressions of JavaScript: [RegExp] objects and the string
    methods that take one. *)
Class RegExpEngine : Type := {
  Pattern : Type;
  (** [new RegExp(source, flags)] *)
  RegExp : string -> string -> Pattern;
  (** [value.replace(pattern, target)] *)
  re_replace : string -> Pattern -> string -> string;
  (** [value.match(pattern)]: [null] or the array of matches, whose
      elements may be [undefined] (a group that took no part). *)
  re_match : string -> Pattern -> option (list (option string));
  (** [value.replaceAll(pattern, target)] *)
  re_replaceAll : string -> Pattern -> string -> string
}.

(** [RegexTransformer] of [github-pr-collector/lib/types], the validated
    form of an extractor or transformer; the fields are the ones
    [transform.ts] reads. *)
Record RegexTransformer {E : RegExpEngine} : Type := {
  pattern : option Pattern;
  target : string;
  onProperty : option (list Property);
  method : option string;
  onEmpty : option string
}.

(** A review comment, as the values [transform.ts] reads from it:
    [commentField c k] is [c[k]?.toLocaleString('en') || ''] . *)
Record CommentInfo : Type := { commentField : string -> string }.

(** [PullRequestInfo] of [github-pr-collector/lib/pullRequests], with the
    fields [transform.ts] reads. *)
Record PullRequestInfo : Type := {
  number : Z;
  title : string;
  htmlURL : string;
  baseBranch : string;
  branch : option string;
  createdAt : Date;
  mergedAt : option Date;
  mergeCommitSha : string;
  author : string;
  labels : list string;
  milestone : option string;
  body : string;
  assignees : list string;
  requestedReviewers : list string;
  approvedReviewers : list string;
  reviews : option (list CommentInfo);
  status : string
}.

(** [PullRequestData]: a pull request with the children the reference
    linker attached, held by reference. *)
Record PullRequestData : Type := {
  info : PullRequestInfo;
  childPrs : option (list ref)
}.

(** The objects reachable from the record list. *)
Definition Heap := ref -> PullRequestData.

(** The functions [transform.ts] imports from [github-pr-collector] and
    from ['./regexUtils'], and the locale- and time-dependent built-ins of
    JavaScript. *)
Class Host {E : RegExpEngine} : Type := {
  (** [Regex]/[Extractor] of the configuration, before validation *)
  Regex : Type;
  (** [Rule] of a category *)
  Rule : Type;
  (** the sort specification, [Sort | string] *)
  Sort : Type;
  validateTransformer : option Regex -> option RegexTransformer;
  matchesRules : list Rule -> PullRequestInfo -> bool -> bool;
  (** [sortPullRequests(prs, sort)] reads the records only; it is given the
      array of references and the way to read a record *)
  sortPullRequests : forall A : Type, (A -> PullRequestInfo) -> list A -> Sort -> list A;
  retrieveProperty : PullRequestInfo -> Property -> string -> string;
  (** [Object.keys(EMPTY_PULL_REQUEST_INFO)] and
      [pr[k]?.toLocaleString('en') || ''] *)
  pullRequestInfoKeys : list string;
  pullRequestInfoField : PullRequestInfo -> string -> string;
  (** [Object.keys(EMPTY_COMMENT_INFO)] *)
  commentInfoKeys : list string;
  toLocaleLowerCase : string -> string;
  trim : string -> string;
  (** [parseInt(s)]; [None] is [NaN] *)
  parseInt : string -> option Z;
  toISOString : Date -> string;
  (** [toDate.diff(fromDate, 'days')] *)
  diffDays : Date -> Date -> Z
}.

(* ===================================================================== *)
(** ** Modules of the repository that are imported by [transform.ts]      *)
(* ===================================================================== *)

(** Modelled from the spec: [haveCommonElementsArr] of ['./utils'], whose
    source is not part of the sources at hand.  The spec reads it as "the
    record's label set intersects" the given labels: some element of the
    first array is an element of the second. *)
Definition haveCommonElementsArr (arr1 arr2 : list string) : bool :=
  existsb (fun item => existsb (String.eqb item) arr2) arr1.

(** Modelled from the spec: [haveEveryElementsArr] of ['./utils'] (source
    not at hand).  The spec reads it as "record labels are a superset of the
    category's required labels": every element of the first array is an
    element of the second. *)
Definition haveEveryElementsArr (arr1 arr2 : list string) : bool :=
  forallb (fun item => existsb (String.eqb item) arr2) arr1.

(** Modelled from the spec: [createOrSet] of ['./utils'] (source not at
    hand).  The spec has the values of a key "recorded ... keyed by the
    rule's output name" and read back by index: the value is appended to
    the array of the key, which is created when the key is new. *)
Definition createOrSet {V : Type} (m : JsMap.t string (list V)) (key : string) (value : V)
  : JsMap.t string (list V) :=
  match JsMap.get String.eqb key m with
  | None => JsMap.set String.eqb key [value] m
  | Some entry => JsMap.set String.eqb key (entry ++ [value]) m
  end.

(* ===================================================================== *)
(** ** Configuration                                                      *)
(* ===================================================================== *)

Section Configuration.
Context {E : RegExpEngine} {H : Host}.

(** [Category] of ['./configuration']; [cat_title] and [cat_labels] are its
    fields [title] and [labels], which a pull request has too. *)
Record Category : Type := {
  key : option string;
  cat_title : option string;
  cat_labels : option (list string);
  exclude_labels : option (list string);
  rules : option (list Rule);
  exhaustive : option bool;
  exhaustive_rules : option bool;
  empty_content : option string
}.

(** [Placeholder] of ['./configuration']. *)
Record Placeholder : Type := {
  name : string;
  source : string;
  transformer : Regex
}.

(** [Configuration] of ['./configuration'], with the fields that
    [transform.ts] reads. *)
Record Configuration : Type := {
  sort : Sort;
  template : string;
  pr_template : string;
  empty_template : string;
  categories : list Category;
  ignore_labels : list string;
  label_extractor : list Regex;
  duplicate_filter : option Regex;
  reference : option Regex;
  transformers : list Regex;
  custom_placeholders : option (list Placeholder);
  trim_values : bool
}.

(** [TagInfo]: a tag and, when known, its date. *)
Record TagInfo : Type := {
  tag_name : string;
  tag_date : option Date
}.

(** [ReleaseNotesOptions] of ['./releaseNotesBuilder']. *)
Record ReleaseNotesOptions : Type := {
  owner : string;
  repo : string;
  fromTag : TagInfo;
  toTag : TagInfo;
  configuration : Configuration
}.

(** [DiffInfo] of [github-pr-collector/lib/commits]. *)
Record DiffInfo : Type := {
  changedFiles : Z;
  additions : Z;
  deletions : Z;
  changes : Z;
  commits : Z
}.

End Configuration.

(* ===================================================================== *)
(** ** [transform.ts]                                                     *)
(* ===================================================================== *)

Section Transform.
Context {E : RegExpEngine} {H : Host}.

(** *** Extraction *)

(** [extractValuesFromString(value, extractor)] *)
Definition extractValuesFromString (value : string) (extractor : RegexTransformer)
  : option (list string) :=
  match pattern extractor with
  | None => None
  | Some pat =>
      let fallback :=
        match onEmpty extractor with
        | Some e => Some [toLocaleLowerCase e]
        | None => None
        end in
      match method extractor with
      | Some "match" =>
          match re_match value pat with
          | Some (l :: ls) =>
              Some (map (fun label =>
                           match label with
                           | Some s => Js.or_else (toLocaleLowerCase s) ""
                           | None => ""
                           end) (l :: ls))
          | _ => fallback
          end
      | _ =>
          let label := re_replace value pat (target extractor) in
          if negb (label =? "")%string then Some [toLocaleLowerCase label] else fallback
      end
  end.

(** [extractValues(pr, extractor, extractor_usecase)] *)
Definition extractValues (pr : PullRequestInfo) (extractor : RegexTransformer)
           (extractor_usecase : string) : option (list string) :=
  match pattern extractor with
  | None => None
  | Some _ =>
      match onProperty extractor with
      | Some list =>
          Some (fold_left
                  (fun results prop =>
                     let value := retrieveProperty pr prop extractor_usecase in
                     match extractValuesFromString value extractor with
                     | Some values => results ++ values
                     | None => results
                     end)
                  list [])
      | None => extractValuesFromString (body pr) extractor
      end
  end.

(** [validateTransformers(specifiedTransformers)] *)
Definition validateTransformers (specifiedTransformers : list Regex) : list RegexTransformer :=
  flat_map
    (fun t =>
       match validateTransformer (Some t) with
       | Some tr => match pattern tr with Some _ => [tr] | None => [] end
       | None => []
       end)
    specifiedTransformers.

(** [transform(filled, transformers)] *)
Definition transform (filled : string) (transformers : list RegexTransformer) : string :=
  fold_left
    (fun transformed tr =>
       match pattern tr with
       | Some pat => re_replace transformed pat (target tr)
       | None => transformed
       end)
    transformers filled.

(** *** The heap of pull-request objects *)

Definition setChildPrs (h : Heap) (r : ref) (children : option (list ref)) : Heap :=
  fun r' => if Nat.eqb r' r then {| info := info (h r); childPrs := children |} else h r'.

Definition withLabels (pr : PullRequestInfo) (ls : list string) : PullRequestInfo :=
  {| number := number pr; title := title pr; htmlURL := htmlURL pr;
     baseBranch := baseBranch pr; branch := branch pr; createdAt := createdAt pr;
     mergedAt := mergedAt pr; mergeCommitSha := mergeCommitSha pr; author := author pr;
     labels := ls; milestone := milestone pr; body := body pr;
     assignees := assignees pr; requestedReviewers := requestedReviewers pr;
     approvedReviewers := approvedReviewers pr; reviews := reviews pr;
     status := status pr |}.

(** [pr.labels.push(label)] for each label of [extracted]. *)
Definition pushLabels (h : Heap) (r : ref) (extracted : list string) : Heap :=
  fun r' =>
    if Nat.eqb r' r
    then {| info := withLabels (info (h r)) (labels (info (h r)) ++ extracted);
            childPrs := childPrs (h r) |}
    else h r'.

(** [parent.childPrs.push(pr)], after [childPrs] is created when undefined. *)
Definition pushChild (h : Heap) (parent : ref) (r : ref) : Heap :=
  match childPrs (h parent) with
  | None => setChildPrs h parent (Some [r])
  | Some cs => setChildPrs h parent (Some (cs ++ [r]))
  end.

(** *** Reference linker (lines 41-76) *)

(** The first loop: [mapped.set(pr.number, pr)] for each record. *)
Definition mapByNumber (h : Heap) (prs : list ref) : JsMap.t Z ref :=
  fold_left (fun mapped r => JsMap.set Z.eqb (number (info (h r))) r mapped) prs [].

(** The reference of a record resolved against [mapped]: the parent the
    record is attached to, if any ([valid && parent !== undefined]). *)
Definition resolveParent (mapped : JsMap.t Z ref) (pr : PullRequestInfo)
           (reference : RegexTransformer) : option ref :=
  match extractValues pr reference "reference" with
  | Some (first :: _) =>
      match parseInt first with
      | Some foundNumber => JsMap.get Z.eqb foundNumber mapped
      | None => None
      end
  | _ => None
  end.

(** One turn of the second loop, on the state [(heap, remappedPrs)]. *)
Definition linkStep (mapped : JsMap.t Z ref) (reference : RegexTransformer)
           (st : Heap * list ref) (r : ref) : Heap * list ref :=
  let '(h, remappedPrs) := st in
  match resolveParent mapped (info (h r)) reference with
  | Some parent => (pushChild h parent r, remappedPrs)
  | None => (h, remappedPrs ++ [r])
  end.

Definition linkReferences (h : Heap) (prs : list ref) (reference : RegexTransformer)
  : Heap * list ref :=
  fold_left (linkStep (mapByNumber h prs) reference) prs (h, []).

(** *** Deduplicator (lines 78-103) *)

(** The key of a record: [extracted[0]] when the extraction is not [null]
    and not empty. *)
Definition dedupKey (extractor : RegexTransformer) (pr : PullRequestInfo) : option string :=
  match extractValues pr extractor "dupliate_filter" with
  | Some (first :: _) => Some first
  | _ => None
  end.

(** One turn of the loop, on the state [(deduplicatedMap, unmatched)]. *)
Definition dedupStep (h : Heap) (extractor : RegexTransformer)
           (st : JsMap.t string ref * list ref) (r : ref) : JsMap.t string ref * list ref :=
  let '(deduplicatedMap, unmatched) := st in
  match dedupKey extractor (info (h r)) with
  | Some k => (JsMap.set String.eqb k r deduplicatedMap, unmatched)
  | None => (deduplicatedMap, unmatched ++ [r])
  end.

(** [deduplicatedPRs] before the final sort. *)
Definition deduplicatedPRs (h : Heap) (prs : list ref) (extractor : RegexTransformer) : list ref :=
  let '(deduplicatedMap, unmatched) := fold_left (dedupStep h extractor) prs ([], []) in
  JsMap.values deduplicatedMap ++ unmatched.

(** The deduplicator: the records left, sorted again, and [removedElements]. *)
Definition deduplicate (h : Heap) (prs : list ref) (extractor : RegexTransformer) (sort : Sort)
  : list ref * Z :=
  let survivors := deduplicatedPRs h prs extractor in
  let removedElements := (Z.of_nat (length prs) - Z.of_nat (length survivors))%Z in
  (sortPullRequests (fun r => info (h r)) survivors sort, removedElements).

(** *** Label extractor (lines 105-120) *)

Definition extractLabels (h : Heap) (prs : list ref) (labelExtractors : list RegexTransformer)
  : Heap :=
  fold_left
    (fun h1 extractor =>
       fold_left
         (fun h2 r =>
            match extractValues (info (h2 r)) extractor "label_extractor" with
            | Some extracted => pushLabels h2 r extracted
            | None => h2
            end)
         prs h1)
    labelExtractors h.

(** *** Placeholders (lines 342-548) *)

(** The token of a placeholder key. *)
Definition token (key : string) : string := ("${{" ++ key ++ "}}")%string.

(** [configuration.trim_values ? value.trim() : value] *)
Definition trimmed (configuration : Configuration) (value : string) : string :=
  if trim_values configuration then trim value else value.

(** The condition under which a custom placeholder takes the extracted
    value (line 448):
    [extractedValue && (extractedValue !== value ||
       (extractedValue === value && value.match(transformer.pattern)))] *)
Definition customPlaceholderMatched (value extractedValue : string) (pat : Pattern) : bool :=
  Js.truthy extractedValue
  && (negb (extractedValue =? value)%string
      || ((extractedValue =? value)%string
          && match re_match value pat with Some _ => true | None => false end)).

(** The body of the loop over the custom placeholders of a key (lines
    443-464), on the state [(transformed, placeholderPrMap)]. *)
Definition applyCustomPlaceholder (value : string) (configuration : Configuration)
           (st : string * option (JsMap.t string (list string))) (placeholder : Placeholder)
  : string * option (JsMap.t string (list string)) :=
  let '(transformed, placeholderPrMap) := st in
  match validateTransformer (Some (transformer placeholder)) with
  | Some tr =>
      match pattern tr with
      | Some pat =>
          let extractedValue := re_replace value pat (target tr) in
          if customPlaceholderMatched value extractedValue pat
          then (Js.replaceAll transformed (token (name placeholder))
                              (trimmed configuration extractedValue),
                match placeholderPrMap with
                | Some m => Some (createOrSet m (name placeholder) extractedValue)
                | None => None
                end)
          else st
      | None => st
      end
  | None => st
  end.

(** [handlePlaceholder(template, key, value, placeholders, placeholderPrMap,
    configuration)]; the map is returned with the text. *)
Definition handlePlaceholder (template key value : string)
           (placeholders : JsMap.t string (list Placeholder))
           (placeholderPrMap : option (JsMap.t string (list string)))
           (configuration : Configuration)
  : string * option (JsMap.t string (list string)) :=
  let transformed := Js.replaceAll template (token key) (trimmed configuration value) in
  match JsMap.get String.eqb key placeholders with
  | Some phs => fold_left (applyCustomPlaceholder value configuration) phs
                          (transformed, placeholderPrMap)
  | None => (transformed, placeholderPrMap)
  end.

(** [replacePlaceholders]: the array placeholders first, then the others. *)
Definition replacePlaceholders (template : string)
           (arrayPlaceholderMap placeholderMap : JsMap.t string string)
           (placeholders : JsMap.t string (list Placeholder))
           (placeholderPrMap : option (JsMap.t string (list string)))
           (configuration : Configuration)
  : string * option (JsMap.t string (list string)) :=
  fold_left
    (fun st kv => handlePlaceholder (fst st) (fst kv) (snd kv) placeholders (snd st) configuration)
    (arrayPlaceholderMap ++ placeholderMap)
    (template, placeholderPrMap).

(** [placeholderMap.set(k, v)] for each pair, in turn. *)
Definition setAll (kvs : list (string * string)) (m : JsMap.t string string)
  : JsMap.t string string :=
  fold_left (fun m' kv => JsMap.set String.eqb (fst kv) (snd kv) m') kvs m.

(** The elements of an array with their indices. *)
Definition indexed {A : Type} (l : list A) : list (nat * A) := combine (seq 0 (length l)) l.

(** [fillArrayPlaceholders(placeholderMap, key, values)] *)
Definition fillArrayPlaceholders (placeholderMap : JsMap.t string string) (key : string)
           (values : list string) : JsMap.t string string :=
  match values with
  | [] => placeholderMap
  | _ =>
      JsMap.set String.eqb (key ++ "[*]")%string (Js.join ", " values)
        (fold_left
           (fun m iv => JsMap.set String.eqb
                          (key ++ "[" ++ Js.natToString (fst iv) ++ "]")%string (snd iv) m)
           (indexed values) placeholderMap)
  end.

(** [fillReviewPlaceholders] and [fillChildPrPlaceholders]: the same loops
    over the keys of an object, [field v k] being
    [v[k]?.toLocaleString('en') || '']. *)
Definition fillObjectPlaceholders {A : Type} (childKeys : list string)
           (field : A -> string -> string)
           (placeholderMap : JsMap.t string string) (parentKey : string) (values : list A)
  : JsMap.t string string :=
  match values with
  | [] => placeholderMap
  | _ =>
      fold_left
        (fun m childKey =>
           JsMap.set String.eqb (parentKey ++ "[*]." ++ childKey)%string
             (Js.join ", " (map (fun v => field v childKey) values))
             (fold_left
                (fun m' iv => JsMap.set String.eqb
                                (parentKey ++ "[" ++ Js.natToString (fst iv) ++ "]." ++ childKey)%string
                                (field (snd iv) childKey) m')
                (indexed values) m))
        childKeys placeholderMap
  end.

Definition fillReviewPlaceholders (placeholderMap : JsMap.t string string) (parentKey : string)
           (values : list CommentInfo) : JsMap.t string string :=
  fillObjectPlaceholders commentInfoKeys commentField placeholderMap parentKey values.

Definition fillChildPrPlaceholders (placeholderMap : JsMap.t string string) (parentKey : string)
           (values : list PullRequestInfo) : JsMap.t string string :=
  fillObjectPlaceholders pullRequestInfoKeys pullRequestInfoField placeholderMap parentKey values.

Definition orEmpty (s : option string) : string :=
  match s with Some v => v | None => "" end.

Definition orNil {A : Type} (l : option (list A)) : list A :=
  match l with Some v => v | None => [] end.

Definition isoOrEmpty (d : option Date) : string :=
  match d with Some v => Js.or_else (toISOString v) "" | None => "" end.

(** [fillAdditionalPlaceholders(options, placeholderMap)] *)
Definition fillAdditionalPlaceholders (options : ReleaseNotesOptions)
           (placeholderMap : JsMap.t string string) : JsMap.t string string :=
  setAll
    [ ("OWNER", owner options);
      ("REPO", repo options);
      ("FROM_TAG", tag_name (fromTag options));
      ("FROM_TAG_DATE", isoOrEmpty (tag_date (fromTag options)));
      ("TO_TAG", tag_name (toTag options));
      ("TO_TAG_DATE", isoOrEmpty (tag_date (toTag options)));
      ("DAYS_SINCE",
        match tag_date (fromTag options), tag_date (toTag options) with
        | Some fromDate, Some toDate => Js.or_else (Js.toString (diffDays toDate fromDate)) ""
        | _, _ => ""
        end);
      ("RELEASE_DIFF",
        "https://github.com/" ++ owner options ++ "/" ++ repo options ++ "/compare/"
          ++ tag_name (fromTag options) ++ "..." ++ tag_name (toTag options))%string ]
    placeholderMap.

(** [placeholders]: the custom placeholders by their source key. *)
Definition placeholdersBySource (configuration : Configuration)
  : JsMap.t string (list Placeholder) :=
  fold_left (fun m ph => createOrSet m (source ph) ph)
            (orNil (custom_placeholders configuration)) [].

(** [replaceEmptyTemplate(template, options)] *)
Definition replaceEmptyTemplate (template : string) (options : ReleaseNotesOptions) : string :=
  let placeholders := placeholdersBySource (configuration options) in
  let placeholderMap := fillAdditionalPlaceholders options [] in
  fst (replacePlaceholders template [] placeholderMap placeholders None (configuration options)).

(** [fillPrTemplate(pr, template, placeholders, placeholderPrMap,
    configuration)], for the record at [r]. *)
Definition fillPrTemplate (h : Heap) (r : ref) (template : string)
           (placeholders : JsMap.t string (list Placeholder))
           (placeholderPrMap : JsMap.t string (list string))
           (configuration : Configuration)
  : string * option (JsMap.t string (list string)) :=
  let pr := info (h r) in
  let arrays0 := fillReviewPlaceholders [] "REVIEWS" (orNil (reviews pr)) in
  let arrays1 := fillChildPrPlaceholders arrays0 "REFERENCED"
                   (map (fun c => info (h c)) (orNil (childPrs (h r)))) in
  let arrays2 := fillArrayPlaceholders arrays1 "ASSIGNEES" (assignees pr) in
  let arrays3 := fillArrayPlaceholders arrays2 "REVIEWERS" (requestedReviewers pr) in
  let arrayPlaceholderMap := fillArrayPlaceholders arrays3 "APPROVERS" (approvedReviewers pr) in
  let placeholderMap :=
    setAll
      [ ("NUMBER", Js.toString (number pr));
        ("TITLE", title pr);
        ("URL", htmlURL pr);
        ("STATUS", status pr);
        ("CREATED_AT", toISOString (createdAt pr));
        ("MERGED_AT", isoOrEmpty (mergedAt pr));
        ("MERGE_SHA", mergeCommitSha pr);
        ("AUTHOR", author pr);
        ("LABELS",
          Js.or_else
            (Js.join ", " (filter (fun l => negb (Js.startsWith "--rcba-" l)) (labels pr))) "");
        ("MILESTONE", orEmpty (milestone pr));
        ("BODY", body pr);
        ("ASSIGNEES", Js.or_else (Js.join ", " (assignees pr)) "");
        ("REVIEWERS", Js.or_else (Js.join ", " (requestedReviewers pr)) "");
        ("APPROVERS", Js.or_else (Js.join ", " (approvedReviewers pr)) "");
        ("BRANCH", orEmpty (branch pr));
        ("BASE_BRANCH", baseBranch pr) ]
      [] in
  replacePlaceholders template arrayPlaceholderMap placeholderMap placeholders
                      (Some placeholderPrMap) configuration.

(** The inner loop of [replacePrPlaceholders] (lines 524-526): the tokens
    [NAME[i]] of one custom placeholder. *)
Definition replaceIndexedValues (template key : string) (values : list string)
           (configuration : Configuration) : string :=
  fold_left
    (fun t iv => Js.replaceAll t (token (key ++ "[" ++ Js.natToString (fst iv) ++ "]"))
                               (trimmed configuration (snd iv)))
    (indexed values) template.

(** [replacePrPlaceholders(template, placeholderPrMap, configuration)] *)
Definition replacePrPlaceholders (template : string)
           (placeholderPrMap : JsMap.t string (list string)) (configuration : Configuration)
  : string :=
  fold_left
    (fun transformed kv =>
       Js.replaceAll (replaceIndexedValues transformed (fst kv) (snd kv) configuration)
                     (token (fst kv ++ "[*]")) (Js.join "" (snd kv)))
    placeholderPrMap template.

(** [cleanupPrPlaceholders(template, placeholders)] *)
Definition cleanupPrPlaceholders (template : string)
           (placeholders : JsMap.t string (list Placeholder)) : string :=
  fold_left
    (fun transformed kv =>
       fold_left
         (fun t ph =>
            re_replaceAll t (RegExp ("\$\{\{" ++ name ph ++ "(?:\[.+?\])?\}\}") "gu") "")
         (snd kv) transformed)
    placeholders template.

(** [cleanupPlaceholders(template)] *)
Definition cleanupPlaceholders (template : string) : string :=
  fold_left
    (fun transformed phs =>
       re_replaceAll transformed (RegExp ("\$\{\{" ++ phs ++ "\[.+?\]\..*?\}\}") "gu") "")
    ["REVIEWS"; "REFERENCED"; "ASSIGNEES"; "REVIEWERS"; "APPROVERS"] template.

(** *** Classifier (lines 138-239) *)

Definition lowerAll (ls : list string) : list string := map toLocaleLowerCase ls.

(** The record carries one of the [ignore_labels] (lines 154-162). *)
Definition isIgnored (ignoredLabels : list string) (pr : PullRequestInfo) : bool :=
  haveCommonElementsArr (lowerAll ignoredLabels) (labels pr).

(** The record is skipped for the category by an exclude label (lines
    172-185). *)
Definition isExcluded (category : Category) (pr : PullRequestInfo) : bool :=
  match exclude_labels category with
  | Some ex => haveCommonElementsArr (lowerAll ex) (labels pr)
  | None => false
  end.

Definition isDefined {A : Type} (o : option A) : bool :=
  match o with Some _ => true | None => false end.

(** [category.exhaustive === true] *)
Definition isTrue (o : option bool) : bool :=
  match o with Some true => true | _ => false end.

(** [matched] at line 221, for a record that no exclude label skipped
    (lines 187-220). *)
Definition matchesCategory (category : Category) (pr : PullRequestInfo) : bool :=
  if isTrue (exhaustive category)
     && (isDefined (cat_labels category) || isDefined (rules category))
  then
    let matched :=
      match cat_labels category with
      | Some ls => haveEveryElementsArr (lowerAll ls) (labels pr)
      | None => false
      end in
    let exhaustive_rules :=
      match exhaustive_rules category with Some b => b | None => true end in
    match rules category with
    | Some rs => if matched then matchesRules rs pr exhaustive_rules else matched
    | None => matched
    end
  else
    let matched :=
      match cat_labels category with
      | Some ls => haveCommonElementsArr (lowerAll ls) (labels pr)
      | None => false
      end in
    let exhaustive_rules :=
      match exhaustive_rules category with Some b => b | None => false end in
    match rules category with
    | Some rs => if negb matched then matchesRules rs pr exhaustive_rules else matched
    | None => matched
    end.

(** The record is added to the list of the category (line 222). *)
Definition addedToCategory (category : Category) (pr : PullRequestInfo) : bool :=
  if isExcluded category pr then false else matchesCategory category pr.

(** The loop over the categories (lines 169-225): the lists with the body
    added where the category matched, and [matchedOnce]. *)
Fixpoint matchCategories (categorized : list (Category * list string)) (pr : PullRequestInfo)
         (body : string) (matchedOnce : bool) : list (Category * list string) * bool :=
  match categorized with
  | [] => ([], matchedOnce)
  | (category, pullRequests) :: rest =>
      if isExcluded category pr then
        let '(rest', m) := matchCategories rest pr body matchedOnce in
        ((category, pullRequests) :: rest', m)
      else
        let matched := matchesCategory category pr in
        let pullRequests' := if matched then pullRequests ++ [body] else pullRequests in
        let '(rest', m) := matchCategories rest pr body (matchedOnce || matched) in
        ((category, pullRequests') :: rest', m)
  end.

(** The loop of lines 229-234: the body goes to the first category that has
    no labels (or an empty list of them) and no rules. *)
Fixpoint addToCatchAll (categorized : list (Category * list string)) (body : string)
  : list (Category * list string) :=
  match categorized with
  | [] => []
  | (category, pullRequests) :: rest =>
      if match cat_labels category with
         | None => true
         | Some ls => Nat.eqb (length ls) 0
         end
         && negb (isDefined (rules category))
      then (category, pullRequests ++ [body]) :: rest
      else (category, pullRequests) :: addToCatchAll rest body
  end.

(** The lists the classifier fills. *)
Record Buckets : Type := {
  categorized : list (Category * list string);
  categorizedPrs : list string;
  ignoredPrs : list string;
  openPrs : list string;
  uncategorizedPrs : list string
}.

(** One turn of the loop over [transformedMap] (lines 153-239). *)
Definition classifyStep (h : Heap) (ignoredLabels : list string) (b : Buckets)
           (entry : ref * string) : Buckets :=
  let pr := info (h (fst entry)) in
  let body := snd entry in
  if isIgnored ignoredLabels pr then
    {| categorized := categorized b; categorizedPrs := categorizedPrs b;
       ignoredPrs := ignoredPrs b ++ [body]; openPrs := openPrs b;
       uncategorizedPrs := uncategorizedPrs b |}
  else
    let openPrs' := if (status pr =? "open")%string then openPrs b ++ [body] else openPrs b in
    let '(categorized', matchedOnce) := matchCategories (categorized b) pr body false in
    if negb matchedOnce then
      {| categorized := addToCatchAll categorized' body; categorizedPrs := categorizedPrs b;
         ignoredPrs := ignoredPrs b; openPrs := openPrs';
         uncategorizedPrs := uncategorizedPrs b ++ [body] |}
    else
      {| categorized := categorized'; categorizedPrs := categorizedPrs b ++ [body];
         ignoredPrs := ignoredPrs b; openPrs := openPrs';
         uncategorizedPrs := uncategorizedPrs b |}.

(** The classifier: every category starts with an empty list (lines
    143-145), then the records are taken in the order of [transformedMap].
    The map [categorized] is kept as the list of its entries, one for each
    category of the configuration (they are distinct objects). *)
Definition classify (h : Heap) (configuration : Configuration)
           (transformedMap : JsMap.t ref string) : Buckets :=
  fold_left (classifyStep h (ignore_labels configuration)) transformedMap
            {| categorized := map (fun c => (c, [])) (categories configuration);
               categorizedPrs := []; ignoredPrs := []; openPrs := [];
               uncategorizedPrs := [] |}.

(** The loop of lines 132-134: the text of every record, kept in
    [transformedMap] under the record, and the custom values collected in
    [placeholderPrMap]. *)
Definition renderStep (h : Heap) (configuration : Configuration)
           (placeholders : JsMap.t string (list Placeholder))
           (validatedTransformers : list RegexTransformer)
           (st : JsMap.t ref string * JsMap.t string (list string)) (r : ref)
  : JsMap.t ref string * JsMap.t string (list string) :=
  let '(transformedMap, placeholderPrMap) := st in
  let '(filled, prMap') :=
    fillPrTemplate h r (pr_template configuration) placeholders placeholderPrMap configuration in
  (JsMap.set Nat.eqb r (transform filled validatedTransformers) transformedMap,
   match prMap' with Some m => m | None => placeholderPrMap end).

Definition renderAll (h : Heap) (configuration : Configuration) (prs : list ref)
  : JsMap.t ref string * JsMap.t string (list string) :=
  fold_left
    (renderStep h configuration (placeholdersBySource configuration)
                (validateTransformers (transformers configuration)))
    prs ([], []).

(** *** Assembly (lines 249-340) *)

Definition nl : string := String (ascii_of_nat 10) "".

(** [changelog + pr + '\n'] for each text of the list. *)
Definition joinLines (start : string) (lines : list string) : string :=
  fold_left (fun acc pr => (acc ++ pr ++ nl)%string) lines start.

Definition withTitle (changelog : string) (category : Category) : string :=
  match cat_title category with
  | Some t => if Js.truthy t then (changelog ++ t ++ nl ++ nl)%string else changelog
  | None => changelog
  end.

(** The sections of the categories (lines 250-267). *)
Definition buildSections (categorized : list (Category * list string)) : string :=
  fold_left
    (fun changelog entry =>
       let category := fst entry in
       match snd entry with
       | _ :: _ => (joinLines (withTitle changelog category) (snd entry) ++ nl)%string
       | [] =>
           match empty_content category with
           | Some ec => (withTitle changelog category ++ ec ++ nl ++ nl)%string
           | None => changelog
           end
       end)
    categorized "".

(** What [buildChangelog] returns and what it hands to [core.setOutput]. *)
Record Outcome : Type := {
  changelog : string;
  categorized_prs : option nat;
  uncategorized_prs : option nat;
  open_prs : option nat
}.

(** The records after the reference linker (lines 41-76). *)
Definition linkStage (configuration : Configuration) (st : Heap * list ref) : Heap * list ref :=
  match reference configuration with
  | Some rx =>
      match validateTransformer (Some rx) with
      | Some reference => linkReferences (fst st) (snd st) reference
      | None => st
      end
  | None => st
  end.

(** The records after the deduplicator (lines 78-103). *)
Definition dedupStage (configuration : Configuration) (h : Heap) (prs : list ref) : list ref :=
  match duplicate_filter configuration with
  | Some rx =>
      match validateTransformer (Some rx) with
      | Some extractor => fst (deduplicate h prs extractor (sort configuration))
      | None => prs
      end
  | None => prs
  end.

(** [buildChangelog(diffInfo, origPrs, options)].  The objects of [origPrs]
    are referred to by their index in it. *)
Definition buildChangelog (diffInfo : DiffInfo) (origPrs : list PullRequestInfo)
           (options : ReleaseNotesOptions) : Outcome :=
  match origPrs with
  | [] =>
      {| changelog := replaceEmptyTemplate (empty_template (configuration options)) options;
         categorized_prs := None; uncategorized_prs := None; open_prs := None |}
  | pr0 :: _ =>
      let config := configuration options in
      let h0 : Heap := fun r => {| info := nth r origPrs pr0; childPrs := None |} in
      let prs0 := sortPullRequests (fun r => info (h0 r)) (seq 0 (length origPrs)) (sort config) in
      let '(h1, prs1) := linkStage config (h0, prs0) in
      let prs2 := dedupStage config h1 prs1 in
      let h2 := extractLabels h1 prs2 (validateTransformers (label_extractor config)) in
      let '(transformedMap, placeholderPrMap) := renderAll h2 config prs2 in
      let b := classify h2 config transformedMap in
      let placeholderMap :=
        fillAdditionalPlaceholders options
          (setAll
             [ ("CHANGELOG", buildSections (categorized b));
               ("UNCATEGORIZED", joinLines "" (uncategorizedPrs b));
               ("OPEN", joinLines "" (openPrs b));
               ("IGNORED", joinLines "" (ignoredPrs b));
               ("CATEGORIZED_COUNT", Js.natToString (length (categorizedPrs b)));
               ("UNCATEGORIZED_COUNT", Js.natToString (length (uncategorizedPrs b)));
               ("OPEN_COUNT", Js.natToString (length (openPrs b)));
               ("IGNORED_COUNT", Js.natToString (length (ignoredPrs b)));
               ("CHANGED_FILES", Js.toString (changedFiles diffInfo));
               ("ADDITIONS", Js.toString (additions diffInfo));
               ("DELETIONS", Js.toString (deletions diffInfo));
               ("CHANGES", Js.toString (changes diffInfo));
               ("COMMITS", Js.toString (commits diffInfo)) ]
             []) in
      let placeholders := placeholdersBySource config in
      let '(t1, prMap1) :=
        replacePlaceholders (template config) [] placeholderMap placeholders
                            (Some placeholderPrMap) config in
      let t2 := replacePrPlaceholders t1
                  (match prMap1 with Some m => m | None => placeholderPrMap end) config in
      let t3 := cleanupPrPlaceholders t2 placeholders in
      {| changelog := cleanupPlaceholders t3;
         categorized_prs := Some (length (categorizedPrs b));
         uncategorized_prs := Some (length (uncategorizedPrs b));
         open_prs := match openPrs b with
                     | [] => None
                     | _ => Some (length (openPrs b))
                     end |}
  end.

End Transform.

(* ===================================================================== *)
(** ** A concrete host: literal patterns                                  *)
(* ===================================================================== *)

(** The fragment of the regular expressions whose source is a text free of
    metacharacters, with the default flags [gu] of the collector: such a
    pattern matches its own text, wherever it occurs.  The instances of the
    properties below are evaluated in this host.  Dates are rendered as
    their number of milliseconds and the cleanup expressions are read as
    texts; no instance below depends on either. *)
Module Literal.

(** The number of occurrences of [search] that [replaceAll] replaces. *)
Fixpoint countFrom (search : string) (skip : nat) (s : string) : nat :=
  match s with
  | EmptyString => 0
  | String c s' =>
      match skip with
      | S k => countFrom search k s'
      | O =>
          if Js.startsWith search s
          then S (countFrom search (String.length search - 1) s')
          else countFrom search 0 s'
      end
  end.

(** [value.match(/text/gu)]: every occurrence, or [null] when there is none. *)
Definition matchAll (value pat : string) : option (list (option string)) :=
  match countFrom pat 0 value with
  | O => None
  | n => Some (repeat (Some pat) n)
  end.

Definition engine : RegExpEngine :=
  {| Pattern := string;
     RegExp := fun source _ => source;
     re_replace := fun value pat target => Js.replaceAll value pat target;
     re_match := matchAll;
     re_replaceAll := fun value pat target => Js.replaceAll value pat target |}.

Definition lowerChar (c : ascii) : ascii :=
  let n := nat_of_ascii c in
  if ((65 <=? n) && (n <=? 90))%nat then ascii_of_nat (n + 32) else c.

Fixpoint lower (s : string) : string :=
  match s with
  | EmptyString => EmptyString
  | String c s' => String (lowerChar c) (lower s')
  end.

Definition isSpace (c : ascii) : bool :=
  let n := nat_of_ascii c in
  Nat.eqb n 32 || ((9 <=? n) && (n <=? 13))%nat.

Fixpoint trimStart (s : string) : string :=
  match s with
  | EmptyString => EmptyString
  | String c s' => if isSpace c then trimStart s' else s
  end.

Fixpoint trimEnd (s : string) : string :=
  match s with
  | EmptyString => EmptyString
  | String c s' =>
      match trimEnd s' with
      | EmptyString => if isSpace c then EmptyString else String c EmptyString
      | t => String c t
      end
  end.

Definition isDigit (c : ascii) : bool :=
  let n := nat_of_ascii c in ((48 <=? n) && (n <=? 57))%nat.

(** The value of the leading decimal digits, after the digits read so far. *)
Fixpoint digits (acc : option Z) (s : string) : option Z :=
  match s with
  | EmptyString => acc
  | String c s' =>
      if isDigit c
      then digits (Some (match acc with Some a => a * 10 | None => 0 end
                         + Z.of_nat (nat_of_ascii c - 48))%Z) s'
      else acc
  end.

(** [parseInt] on decimal texts: blanks, a sign, then digits. *)
Definition parseDecimal (s : string) : option Z :=
  match trimStart s with
  | String "-" s' => option_map Z.opp (digits None s')
  | String "+" s' => digits None s'
  | s' => digits None s'
  end.

(** A rule holds when the title of the record contains its text. *)
Definition ruleHolds (pr : PullRequestInfo) (rule : string) : bool :=
  negb (Nat.eqb (countFrom rule 0 (title pr)) 0).

Definition literalRules (rs : list string) (pr : PullRequestInfo) (exhaustive : bool) : bool :=
  if exhaustive then forallb (ruleHolds pr) rs else existsb (ruleHolds pr) rs.

(** Stable insertion sort by number, ascending. *)
Fixpoint insertByNumber {A : Type} (read : A -> PullRequestInfo) (x : A) (l : list A) : list A :=
  match l with
  | [] => [x]
  | y :: l' =>
      if (number (read y) <=? number (read x))%Z
      then y :: insertByNumber read x l'
      else x :: l
  end.

Definition sortByNumber (A : Type) (read : A -> PullRequestInfo) (l : list A) (_ : unit)
  : list A :=
  fold_left (fun sorted x => insertByNumber read x sorted) l [].

Definition property (pr : PullRequestInfo) (prop : string) : string :=
  if (prop =? "title")%string then title pr
  else if (prop =? "body")%string then body pr
  else if (prop =? "author")%string then author pr
  else if (prop =? "number")%string then Js.toString (number pr)
  else if (prop =? "status")%string then status pr
  else if (prop =? "labels")%string then Js.join "," (labels pr)
  else "".

Definition host : @Host engine :=
  {| Regex := @RegexTransformer engine;
     Rule := string;
     Sort := unit;
     validateTransformer := fun o => o;
     matchesRules := literalRules;
     sortPullRequests := sortByNumber;
     retrieveProperty := fun pr prop _ => property pr prop;
     pullRequestInfoKeys := ["number"; "title"; "author"; "body"; "status"];
     pullRequestInfoField := property;
     commentInfoKeys := ["author"; "body"];
     toLocaleLowerCase := lower;
     trim := fun s => trimEnd (trimStart s);
     parseInt := parseDecimal;
     toISOString := Js.toString;
     diffDays := fun toDate fromDate => Z.quot (toDate - fromDate) 86400000 |}.

(** A pull request with a number, a title, a body and labels. *)
Definition pr (n : Z) (t b : string) (ls : list string) : PullRequestInfo :=
  {| number := n; title := t; htmlURL := ""; baseBranch := "main"; branch := None;
     createdAt := 0%Z; mergedAt := None; mergeCommitSha := ""; author := "octocat";
     labels := ls; milestone := None; body := b; assignees := [];
     requestedReviewers := []; approvedReviewers := []; reviews := None;
     status := "merged" |}.

(** The heap of the objects of an array, none with children yet. *)
Definition heapOf (objs : list PullRequestInfo) : Heap :=
  fun r => {| info := nth r objs (pr 0 "" "" []); childPrs := None |}.

(** An extractor with method [match] on the body. *)
Definition matching (text : string) : @RegexTransformer engine :=
  @Build_RegexTransformer engine (Some text) "" None (Some "match") None.

(** A replace-style transformer. *)
Definition replacing (text tgt : string) : @RegexTransformer engine :=
  @Build_RegexTransformer engine (Some text) tgt None None None.

Definition config : @Configuration engine host :=
  @Build_Configuration engine host tt "${{CHANGELOG}}" "- ${{TITLE}}" "No changes."
    [] [] [] None None [] None false.

End Literal.


(* ===================================================================== *)
(** ** Notions used in the statements                                     *)
(* ===================================================================== *)

(** The last element of a list, in the order of processing, that passes a
    test. *)
Fixpoint lastWith {A : Type} (p : A -> bool) (l : list A) : option A :=
  match l with
  | [] => None
  | x :: l' =>
      match lastWith p l' with
      | Some y => Some y
      | None => if p x then Some x else None
      end
  end.

Section Notions.
Context {E : RegExpEngine} {H : Host}.

(** The key that the duplicate filter yields for the record at [r]. *)
Definition keyOf (h : Heap) (extractor : RegexTransformer) (r : ref) : option string :=
  dedupKey extractor (info (h r)).

Definition hasKey (h : Heap) (extractor : RegexTransformer) (k : string) (r : ref) : bool :=
  match keyOf h extractor r with
  | Some k' => (k' =? k)%string
  | None => false
  end.

Definition hasNoKey (h : Heap) (extractor : RegexTransformer) (r : ref) : bool :=
  match keyOf h extractor r with
  | Some _ => false
  | None => true
  end.

(** Every entry of the map holds a record that yields the entry's key, and
    no key occurs twice. *)
Definition keyed (h : Heap) (extractor : RegexTransformer) (m : JsMap.t string ref) : Prop :=
  NoDup (JsMap.keys m) /\ forall e, In e m -> keyOf h extractor (snd e) = Some (fst e).

(** The loop of the deduplicator, as far as the map goes. *)
Definition dedupMapFrom (h : Heap) (extractor : RegexTransformer) (prs : list ref)
           (m : JsMap.t string ref) : JsMap.t string ref :=
  fold_left (fun m' r => match keyOf h extractor r with
                         | Some k => JsMap.set String.eqb k r m'
                         | None => m'
                         end) prs m.

(** The parent that the reference of the record at [r] resolves to, in
    the list [prs] of the heap [h]. *)
Definition parentOf (h : Heap) (prs : list ref) (reference : RegexTransformer) (r : ref)
  : option ref :=
  resolveParent (mapByNumber h prs) (info (h r)) reference.

Definition hasNoParent (h : Heap) (prs : list ref) (reference : RegexTransformer) (r : ref)
  : bool :=
  match parentOf h prs reference r with
  | Some _ => false
  | None => true
  end.

Definition hasParent (h : Heap) (prs : list ref) (reference : RegexTransformer) (p r : ref)
  : bool :=
  match parentOf h prs reference r with
  | Some q => Nat.eqb q p
  | None => false
  end.

(** The children attached to the record at [p]: [pr.childPrs || []]. *)
Definition childrenOf (h : Heap) (p : ref) : list ref := orNil (childPrs (h p)).

End Notions.

(** *** Inputs of the instances *)

(** Three records; the first two carry the ticket JIRA-1 in their body. *)
Definition ticketRecords : list PullRequestInfo :=
  [ Literal.pr 1 "first" "JIRA-1 one" [];
    Literal.pr 2 "second" "JIRA-1 two" [];
    Literal.pr 3 "third" "no ticket" [] ].

(** A record that refers to itself: number 3, with 3 in its body; and a
    record that refers to it. *)
Definition selfReferring : list PullRequestInfo :=
  [ Literal.pr 3 "self" "follows 3" [];
    Literal.pr 5 "child" "closes 3" [];
    Literal.pr 7 "alone" "no reference" [] ].

(** A category with a title; the other fields are given. *)
Definition categoryOf (t : string) (ls ex : option (list string)) (rs : option (list string))
           (exh : option bool) : @Category Literal.engine Literal.host :=
  @Build_Category Literal.engine Literal.host None (Some t) ls ex rs exh None None.

(** An exhaustive category that defines rules and leaves its labels unset. *)
Definition fixesByRule : @Category Literal.engine Literal.host :=
  categoryOf "## Fixes" None None (Some ["fix"]) (Some true).

(** An exhaustive category on the label bug, which excludes the label wip. *)
Definition bugsNotWip : @Category Literal.engine Literal.host :=
  categoryOf "## Bugs" (Some ["bug"]) (Some ["wip"]) None (Some true).

(** The record with one more label: [pr.labels.push(label)]. *)
Definition addLabel (pr : PullRequestInfo) (label : string) : PullRequestInfo :=
  withLabels pr (labels pr ++ [label]).

(** The configuration of the literal host with the given categories. *)
Definition configWith (cats : list (@Category Literal.engine Literal.host))
  : @Configuration Literal.engine Literal.host :=
  @Build_Configuration Literal.engine Literal.host tt "${{CHANGELOG}}" "- ${{TITLE}}"
    "No changes." cats [] [] None None [] None false.

(** The keys of [transformedMap] while the texts are written: a record
    that is met again keeps its place. *)
Definition addKey (ks : list ref) (r : ref) : list ref :=
  if existsb (Nat.eqb r) ks then ks else ks ++ [r].

(** A custom placeholder T on the title whose transformer deletes the
    text abc. *)
Definition deletingPlaceholder : @Placeholder Literal.engine Literal.host :=
  @Build_Placeholder Literal.engine Literal.host "T" "TITLE" (Literal.replacing "abc" "").

(** A custom placeholder T on the title whose transformer puts X for abc. *)
Definition renamingPlaceholder : @Placeholder Literal.engine Literal.host :=
  @Build_Placeholder Literal.engine Literal.host "T" "TITLE" (Literal.replacing "abc" "X").

(** Options of a release from v1 to v2 with the configuration of the
    literal host, whose empty template is the text No changes. *)
Definition literalOptions : @ReleaseNotesOptions Literal.engine Literal.host :=
  @Build_ReleaseNotesOptions Literal.engine Literal.host "octo" "repo"
    (Build_TagInfo "v1" None) (Build_TagInfo "v2" None) Literal.config.

(** What a custom placeholder does when it takes the extracted value: the
    token is replaced and the value is recorded (lines 449-455). *)
Definition taken {E : RegExpEngine} {H : Host} (configuration : Configuration)
           (placeholder : Placeholder) (extractedValue : string)
           (st : string * option (JsMap.t string (list string)))
  : string * option (JsMap.t string (list string)) :=
  (Js.replaceAll (fst st) (token (name placeholder)) (trimmed configuration extractedValue),
   option_map (fun m => createOrSet m (name placeholder) extractedValue) (snd st)).


(* ===================================================================== *)
(** ** Notions used in the further statements                             *)
(* ===================================================================== *)

(** An extractor with method [match] that reads the title and the body. *)
Definition matchingTitleAndBody (text : string) : @RegexTransformer Literal.engine :=
  @Build_RegexTransformer Literal.engine (Some text) "" (Some ["title"; "body"])
                          (Some "match") None.

(** An extractor with method [match] on the body and a fallback value. *)
Definition matchingOr (text fallback : string) : @RegexTransformer Literal.engine :=
  @Build_RegexTransformer Literal.engine (Some text) "" None (Some "match") (Some fallback).

(** The heap [h'] has the records of [h] with labels added at the end:
    nothing else of a record differs, and a record outside [prs] is as it
    was. *)
Definition labelsGrow (h h' : Heap) (prs : list ref) : Prop :=
  forall r,
    (exists added, info (h' r) = withLabels (info (h r)) (labels (info (h r)) ++ added))
    /\ childPrs (h' r) = childPrs (h r)
    /\ (~ In r prs -> h' r = h r).

Section ClassifierNotions.
Context {E : RegExpEngine} {H : Host}.

(** The test of line 230: a category without labels (or with an empty
    list of them) and without rules. *)
Definition isCatchAll (category : Category) : bool :=
  match cat_labels category with
  | None => true
  | Some ls => Nat.eqb (length ls) 0
  end
  && negb (isDefined (rules category)).

(** For each category, whether it is the first one that passes the test of
    line 230. *)
Fixpoint firstCatchAll (cs : list Category) : list bool :=
  match cs with
  | [] => []
  | c :: rest =>
      if isCatchAll c then true :: map (fun _ => false) rest
      else false :: firstCatchAll rest
  end.

(** Some category takes the record. *)
Definition takenBySome (cs : list Category) (pr : PullRequestInfo) : bool :=
  existsb (fun c => addedToCategory c pr) cs.

(** The text of the record enters the list of the category [c], the
    [i]-th of [cs]: the category takes the record, or no category does and
    [c] is the first category that passes the test of line 230. *)
Definition entersCategory (cs : list Category) (i : nat) (c : Category)
           (pr : PullRequestInfo) : bool :=
  addedToCategory c pr || (nth i (firstCatchAll cs) false && negb (takenBySome cs pr)).

End ClassifierNotions.

(** A catch-all category: a title and nothing else. *)
Definition otherChanges : @Category Literal.engine Literal.host :=
  categoryOf "## Other" None None None None.

(** A label extractor of the literal host on the body. *)
Definition labelFromBody (text : string) : @RegexTransformer Literal.engine :=
  Literal.matching text.





(* ===================================================================== *)
(** ** Properties of the built-ins                                        *)
(* ===================================================================== *)

Section JsMapFacts.
Variables K V : Type.
Variable eqb : K -> K -> bool.
Hypothesis eqb_spec : forall a b, eqb a b = true <-> a = b.

Lemma eqb_refl_of_spec (a : K) : eqb a a = true.
Proof. now apply eqb_spec. Qed.

Lemma eqb_false_of_spec (a b : K) : a <> b -> eqb a b = false.
Proof.
  intros Hne. destruct (eqb a b) eqn:Hab; [|reflexivity].
  apply eqb_spec in Hab. contradiction.
Qed.

Lemma get_set_same (k : K) (v : V) (m : JsMap.t K V) :
  JsMap.get eqb k (JsMap.set eqb k v m) = Some v.
Proof.
  induction m as [|[k' v'] m IH]; simpl.
  - now rewrite eqb_refl_of_spec.
  - destruct (eqb k k') eqn:Hk; simpl; rewrite Hk; auto.
Qed.

Lemma get_set_other (k k0 : K) (v : V) (m : JsMap.t K V) :
  k0 <> k -> JsMap.get eqb k0 (JsMap.set eqb k v m) = JsMap.get eqb k0 m.
Proof.
  intros Hne. induction m as [|[k' v'] m IH]; simpl.
  - now rewrite eqb_false_of_spec.
  - destruct (eqb k k') eqn:Hk; simpl.
    + apply eqb_spec in Hk. subst k'. now rewrite eqb_false_of_spec.
    + now rewrite IH.
Qed.

Lemma get_None_not_key (k : K) (m : JsMap.t K V) :
  JsMap.get eqb k m = None <-> ~ In k (JsMap.keys m).
Proof.
  induction m as [|[k' v'] m IH]; simpl.
  - tauto.
  - destruct (eqb k k') eqn:Hk.
    + apply eqb_spec in Hk. subst. split; [discriminate | intros Hn; exfalso; auto].
    + rewrite IH. split.
      * intros Hn [He|Hi]; [subst k'; now rewrite eqb_refl_of_spec in Hk | auto].
      * intros Hn Hi. auto.
Qed.

Lemma keys_set (k : K) (v : V) (m : JsMap.t K V) :
  JsMap.keys (JsMap.set eqb k v m)
  = if existsb (eqb k) (JsMap.keys m) then JsMap.keys m else JsMap.keys m ++ [k].
Proof.
  unfold JsMap.keys.
  induction m as [|[k' v'] m IH]; simpl; [reflexivity|].
  destruct (eqb k k') eqn:Hk; simpl; [reflexivity|].
  rewrite IH. now destruct (existsb (eqb k) (map fst m)).
Qed.

Lemma existsb_eqb_In (k : K) (l : list K) : existsb (eqb k) l = true <-> In k l.
Proof.
  rewrite existsb_exists. split.
  - intros [x [Hi He]]. apply eqb_spec in He. now subst.
  - intros Hi. exists k. split; [assumption | apply eqb_refl_of_spec].
Qed.

Lemma keys_set_NoDup (k : K) (v : V) (m : JsMap.t K V) :
  NoDup (JsMap.keys m) -> NoDup (JsMap.keys (JsMap.set eqb k v m)).
Proof.
  intros Hnd. rewrite keys_set.
  destruct (existsb (eqb k) (JsMap.keys m)) eqn:Hex; [assumption|].
  apply NoDup_app; [assumption | repeat constructor; auto | ].
  intros x Hx [<-|[]].
  apply existsb_eqb_In in Hx. congruence.
Qed.

Lemma in_set_inv (k : K) (v : V) (m : JsMap.t K V) (e : K * V) :
  In e (JsMap.set eqb k v m) -> snd e = v /\ fst e = k \/ In e m.
Proof.
  induction m as [|[k' v'] m IH]; simpl.
  - intros [<-|[]]. auto.
  - destruct (eqb k k') eqn:Hk; simpl.
    + apply eqb_spec in Hk. subst k'. intros [<-|Hi]; auto.
    + intros [<-|Hi]; auto. destruct (IH Hi); auto.
Qed.

Lemma length_set (k : K) (v : V) (m : JsMap.t K V) :
  length (JsMap.set eqb k v m)
  = if existsb (eqb k) (JsMap.keys m) then length m else S (length m).
Proof.
  induction m as [|[k' v'] m IH]; simpl; [reflexivity|].
  destruct (eqb k k') eqn:Hk; simpl; [reflexivity|].
  rewrite IH. now destruct (existsb (eqb k) (JsMap.keys m)).
Qed.

End JsMapFacts.

Lemma string_eqb_spec (a b : string) : (a =? b)%string = true <-> a = b.
Proof. apply String.eqb_eq. Qed.

Lemma nat_eqb_spec (a b : nat) : Nat.eqb a b = true <-> a = b.
Proof. apply Nat.eqb_eq. Qed.

Lemma Z_eqb_spec (a b : Z) : Z.eqb a b = true <-> a = b.
Proof. apply Z.eqb_eq. Qed.

(* ===================================================================== *)
(** ** The deduplicator                                                   *)
(* ===================================================================== *)

Section Deduplicator.
Context {E : RegExpEngine} {H : Host}.
Variable h : Heap.
Variable extractor : RegexTransformer.

Lemma keyed_empty : keyed h extractor [].
Proof. split; [constructor | intros e []]. Qed.

Lemma keyed_set (k : string) (r : ref) (m : JsMap.t string ref) :
  keyed h extractor m -> keyOf h extractor r = Some k ->
  keyed h extractor (JsMap.set String.eqb k r m).
Proof.
  intros [Hnd Hall] Hk. split.
  - now apply keys_set_NoDup; [apply string_eqb_spec|].
  - intros e He. apply (@in_set_inv _ _ _ string_eqb_spec) in He.
    destruct He as [[-> ->]|He]; auto.
Qed.

Lemma dedupMapFrom_cons (r : ref) (prs : list ref) (m : JsMap.t string ref) :
  dedupMapFrom h extractor (r :: prs) m
  = dedupMapFrom h extractor prs
      (match keyOf h extractor r with
       | Some k => JsMap.set String.eqb k r m
       | None => m
       end).
Proof. reflexivity. Qed.

Lemma dedupStep_keyOf (r : ref) (m : JsMap.t string ref) (un : list ref) :
  dedupStep h extractor (m, un) r
  = match keyOf h extractor r with
    | Some k => (JsMap.set String.eqb k r m, un)
    | None => (m, un ++ [r])
    end.
Proof. reflexivity. Qed.

Lemma dedupStep_fold (prs : list ref) (m : JsMap.t string ref) (un : list ref) :
  fold_left (dedupStep h extractor) prs (m, un)
  = (dedupMapFrom h extractor prs m, un ++ filter (hasNoKey h extractor) prs).
Proof.
  revert m un. induction prs as [|r prs IH]; intros m un.
  - simpl. now rewrite app_nil_r.
  - cbn [fold_left filter]. rewrite dedupStep_keyOf, dedupMapFrom_cons.
    unfold hasNoKey at 1. destruct (keyOf h extractor r) eqn:Hk.
    + apply IH.
    + rewrite IH, <- app_assoc. reflexivity.
Qed.

Lemma deduplicatedPRs_eq (prs : list ref) :
  deduplicatedPRs h prs extractor
  = JsMap.values (dedupMapFrom h extractor prs []) ++ filter (hasNoKey h extractor) prs.
Proof. unfold deduplicatedPRs. rewrite dedupStep_fold. reflexivity. Qed.

Lemma dedupMapFrom_keyed (prs : list ref) (m : JsMap.t string ref) :
  keyed h extractor m -> keyed h extractor (dedupMapFrom h extractor prs m).
Proof.
  revert m. induction prs as [|r prs IH]; intros m Hm; [assumption|].
  rewrite dedupMapFrom_cons. apply IH.
  destruct (keyOf h extractor r) eqn:Hk; [now apply keyed_set | assumption].
Qed.

Lemma dedupMapFrom_get (k : string) (prs : list ref) (m : JsMap.t string ref) :
  JsMap.get String.eqb k (dedupMapFrom h extractor prs m)
  = match lastWith (hasKey h extractor k) prs with
    | Some r => Some r
    | None => JsMap.get String.eqb k m
    end.
Proof.
  revert m. induction prs as [|r prs IH]; intros m; [reflexivity|].
  rewrite dedupMapFrom_cons, IH. cbn [lastWith]. destruct (lastWith (hasKey h extractor k) prs); [reflexivity|].
  unfold hasKey. destruct (keyOf h extractor r) as [k'|]; [|reflexivity].
  destruct (k' =? k)%string eqn:Hk.
  - apply String.eqb_eq in Hk. subst. apply (@get_set_same _ _ _ string_eqb_spec).
  - apply (@get_set_other _ _ _ string_eqb_spec). intros ->. now rewrite String.eqb_refl in Hk.
Qed.

(** The map holds, under each key, the last record that yielded it. *)
Lemma dedupMap_get (k : string) (prs : list ref) :
  JsMap.get String.eqb k (dedupMapFrom h extractor prs [])
  = lastWith (hasKey h extractor k) prs.
Proof.
  rewrite dedupMapFrom_get. now destruct (lastWith (hasKey h extractor k) prs).
Qed.

Lemma keyed_filter_values (k : string) (m : JsMap.t string ref) :
  keyed h extractor m ->
  filter (hasKey h extractor k) (JsMap.values m)
  = match JsMap.get String.eqb k m with Some r => [r] | None => [] end.
Proof.
  unfold JsMap.values.
  induction m as [|[k' r'] m IH]; intros [Hnd Hall]; simpl; [reflexivity|].
  assert (Hm : keyed h extractor m).
  { split; [now inversion Hnd | intros e He; apply Hall; now right]. }
  specialize (IH Hm).
  assert (Hk' : keyOf h extractor r' = Some k') by (apply (Hall (k', r')); now left).
  unfold hasKey at 1. rewrite Hk'. rewrite String.eqb_sym.
  destruct (k =? k')%string eqn:Hk.
  - apply String.eqb_eq in Hk. subst k'. rewrite IH.
    inversion Hnd as [|? ? Hni _]; subst.
    apply (@get_None_not_key _ _ _ string_eqb_spec) in Hni. now rewrite Hni.
  - exact IH.
Qed.

Lemma filter_hasKey_hasNoKey (k : string) (l : list ref) :
  filter (hasKey h extractor k) (filter (hasNoKey h extractor) l) = [].
Proof.
  induction l as [|r l IH]; simpl; [reflexivity|].
  unfold hasNoKey at 1. destruct (keyOf h extractor r) eqn:Hk; [assumption|].
  simpl. unfold hasKey at 1. now rewrite Hk.
Qed.

Lemma keyed_filter_hasNoKey (m : JsMap.t string ref) :
  keyed h extractor m -> filter (hasNoKey h extractor) (JsMap.values m) = [].
Proof.
  unfold JsMap.values.
  induction m as [|[k' r'] m IH]; intros [Hnd Hall]; simpl; [reflexivity|].
  assert (Hk' : keyOf h extractor r' = Some k') by (apply (Hall (k', r')); now left).
  unfold hasNoKey at 1. rewrite Hk'. apply IH.
  split; [now inversion Hnd | intros e He; apply Hall; now right].
Qed.

Lemma filter_idem {A : Type} (p : A -> bool) (l : list A) :
  filter p (filter p l) = filter p l.
Proof.
  induction l as [|x l IH]; simpl; [reflexivity|].
  destruct (p x) eqn:Hp; simpl; [rewrite Hp, IH|]; auto.
Qed.

(** The records left, by key: one record for each key, the last that
    yielded it. *)
Lemma survivors_by_key (k : string) (prs : list ref) :
  filter (hasKey h extractor k) (deduplicatedPRs h prs extractor)
  = match lastWith (hasKey h extractor k) prs with Some r => [r] | None => [] end.
Proof.
  rewrite deduplicatedPRs_eq, filter_app, filter_hasKey_hasNoKey, app_nil_r.
  rewrite keyed_filter_values by (apply dedupMapFrom_keyed, keyed_empty).
  now rewrite dedupMap_get.
Qed.

(** The records left that yield no key: all those of the input, in order. *)
Lemma survivors_without_key (prs : list ref) :
  filter (hasNoKey h extractor) (deduplicatedPRs h prs extractor)
  = filter (hasNoKey h extractor) prs.
Proof.
  rewrite deduplicatedPRs_eq, filter_app, filter_idem.
  now rewrite keyed_filter_hasNoKey by (apply dedupMapFrom_keyed, keyed_empty).
Qed.

Lemma lastWith_Some {A : Type} (p : A -> bool) (l : list A) (x : A) :
  lastWith p l = Some x -> In x l /\ p x = true.
Proof.
  induction l as [|y l IH]; simpl; [discriminate|].
  destruct (lastWith p l) as [z|].
  - intros Hz. injection Hz as ->. destruct IH; auto.
  - destruct (p y) eqn:Hp; [|discriminate]. intros Hz. injection Hz as ->. auto.
Qed.

Lemma lastWith_app_last {A : Type} (p : A -> bool) (l1 l2 : list A) (x : A) :
  p x = true -> (forall y, In y l2 -> p y = false) ->
  lastWith p (l1 ++ x :: l2) = Some x.
Proof.
  intros Hx Hl2.
  assert (Hnone : lastWith p l2 = None).
  { induction l2 as [|y l2 IH]; simpl; [reflexivity|].
    rewrite IH by (intros z Hz; apply Hl2; now right).
    now rewrite (Hl2 y) by now left. }
  induction l1 as [|y l1 IH]; simpl.
  - now rewrite Hnone, Hx.
  - now rewrite IH.
Qed.

End Deduplicator.

Lemma Permutation_filter_compat {A : Type} (p : A -> bool) (l l' : list A) :
  Permutation l l' -> Permutation (filter p l) (filter p l').
Proof.
  induction 1 as [|x l l' _ IH|x y l|l l' l'' _ IH1 _ IH2]; simpl.
  - constructor.
  - destruct (p x); [now constructor | assumption].
  - destruct (p x), (p y); try apply Permutation_refl. apply perm_swap.
  - now transitivity (filter p l').
Qed.

Lemma insertByNumber_perm {A : Type} (read : A -> PullRequestInfo) (x : A) (l : list A) :
  Permutation (Literal.insertByNumber read x l) (x :: l).
Proof.
  induction l as [|y l IH]; simpl; [apply Permutation_refl|].
  destruct (number (read y) <=? number (read x))%Z; [|apply Permutation_refl].
  transitivity (y :: x :: l); [now constructor | apply perm_swap].
Qed.

(** The sort of the literal host rearranges its input. *)
Lemma sortByNumber_perm {A : Type} (read : A -> PullRequestInfo) (l : list A) (s : unit) :
  Permutation (Literal.sortByNumber read l s) l.
Proof.
  unfold Literal.sortByNumber.
  assert (Hgen : forall acc, Permutation
            (fold_left (fun sorted x => Literal.insertByNumber read x sorted) l acc) (acc ++ l)).
  { induction l as [|x l IH]; intros acc; simpl.
    - rewrite app_nil_r. apply Permutation_refl.
    - transitivity (Literal.insertByNumber read x acc ++ l); [apply IH|].
      transitivity ((x :: acc) ++ l).
      + apply Permutation_app_tail, insertByNumber_perm.
      + apply Permutation_middle. }
  apply (Hgen []).
Qed.

Section DeduplicatorClaims.
Context {E : RegExpEngine} {H : Host}.

(** C1. The deduplicator keeps, for each key that the duplicate filter
    yields, exactly the last record of the processing order that yielded
    it; it keeps every record that yields no key; the records left are
    sorted again with the configured sort; and the count of removed records
    is the length of the input minus the length of the output.  The sort
    is assumed to rearrange the records left. *)
Theorem C1_deduplicate_keeps_last_per_key
        (h : Heap) (prs : list ref) (extractor : RegexTransformer) (sort : Sort)
        (Hsort : Permutation
                   (sortPullRequests (fun r => info (h r)) (deduplicatedPRs h prs extractor) sort)
                   (deduplicatedPRs h prs extractor)) :
  let out := fst (deduplicate h prs extractor sort) in
  let removed := snd (deduplicate h prs extractor sort) in
  (forall k, filter (hasKey h extractor k) out
             = match lastWith (hasKey h extractor k) prs with
               | Some r => [r]
               | None => []
               end)
  /\ Permutation (filter (hasNoKey h extractor) out) (filter (hasNoKey h extractor) prs)
  /\ out = sortPullRequests (fun r => info (h r)) (deduplicatedPRs h prs extractor) sort
  /\ removed = (Z.of_nat (length prs) - Z.of_nat (length out))%Z.
Proof.
  unfold deduplicate. cbn [fst snd]. repeat split.
  - intros k.
    pose proof (Permutation_filter_compat (hasKey h extractor k) Hsort) as Hp.
    rewrite survivors_by_key in Hp.
    destruct (lastWith (hasKey h extractor k) prs) as [r|].
    + apply Permutation_sym, Permutation_length_1_inv in Hp. exact Hp.
    + apply Permutation_sym, Permutation_nil in Hp. exact Hp.
  - pose proof (Permutation_filter_compat (hasNoKey h extractor) Hsort) as Hp.
    now rewrite survivors_without_key in Hp.
  - now rewrite (Permutation_length Hsort).
Qed.

(** C2, as the code has it. When several records yield the same key, the
    one encountered last is kept and an earlier one is dropped; a record
    that yields no key is never dropped. *)
Theorem C2_deduplicate_keeps_last_encountered
        (h : Heap) (extractor : RegexTransformer) (sort : Sort)
        (before between after : list ref) (r1 r2 : ref) (k : string)
        (Hsort : Permutation
                   (sortPullRequests (fun r => info (h r))
                      (deduplicatedPRs h (before ++ r1 :: between ++ r2 :: after) extractor) sort)
                   (deduplicatedPRs h (before ++ r1 :: between ++ r2 :: after) extractor))
        (Hk1 : keyOf h extractor r1 = Some k)
        (Hk2 : keyOf h extractor r2 = Some k)
        (Hlast : forall r, In r after -> keyOf h extractor r <> Some k) :
  let prs := before ++ r1 :: between ++ r2 :: after in
  let out := fst (deduplicate h prs extractor sort) in
  In r2 out
  /\ (r1 <> r2 -> ~ In r1 out)
  /\ (forall r, In r prs -> keyOf h extractor r = None -> In r out).
Proof.
  intros prs out. subst out. unfold deduplicate. cbn [fst].
  assert (Hlw : lastWith (hasKey h extractor k) prs = Some r2).
  { subst prs.
    replace (before ++ r1 :: between ++ r2 :: after)
      with ((before ++ r1 :: between) ++ r2 :: after)
      by (rewrite <- app_assoc; reflexivity).
    apply lastWith_app_last.
    - unfold hasKey. rewrite Hk2. apply String.eqb_refl.
    - intros y Hy. unfold hasKey. specialize (Hlast y Hy).
      destruct (keyOf h extractor y) as [k'|]; [|reflexivity].
      destruct (k' =? k)%string eqn:Hkk; [|reflexivity].
      apply String.eqb_eq in Hkk. subst. now contradiction Hlast. }
  pose proof (survivors_by_key h extractor k prs) as Hby. rewrite Hlw in Hby.
  fold prs in Hsort. repeat split.
  - apply (Permutation_in _ (Permutation_sym Hsort)).
    assert (Hin : In r2 (filter (hasKey h extractor k) (deduplicatedPRs h prs extractor)))
      by (rewrite Hby; now left).
    now apply filter_In in Hin.
  - intros Hne Hin. apply (Permutation_in _ Hsort) in Hin.
    assert (Hin' : In r1 (filter (hasKey h extractor k) (deduplicatedPRs h prs extractor))).
    { apply filter_In. split; [assumption|]. unfold hasKey. rewrite Hk1. apply String.eqb_refl. }
    rewrite Hby in Hin'. destruct Hin' as [->|[]]. now apply Hne.
  - intros r Hr Hnone. apply (Permutation_in _ (Permutation_sym Hsort)).
    assert (Hin : In r (filter (hasNoKey h extractor) (deduplicatedPRs h prs extractor))).
    { rewrite survivors_without_key. apply filter_In. split; [assumption|].
      unfold hasNoKey. now rewrite Hnone. }
    now apply filter_In in Hin.
Qed.

End DeduplicatorClaims.

Lemma C1_witness :
  let h := Literal.heapOf ticketRecords in
  let ex := Literal.matching "JIRA-1" in
  let out := fst (deduplicate (H:=Literal.host) h [0; 1; 2] ex tt) in
  let removed := snd (deduplicate (H:=Literal.host) h [0; 1; 2] ex tt) in
  (forall k, filter (hasKey (H:=Literal.host) h ex k) out
             = match lastWith (hasKey (H:=Literal.host) h ex k) [0; 1; 2] with
               | Some r => [r]
               | None => []
               end)
  /\ Permutation (filter (hasNoKey (H:=Literal.host) h ex) out)
                 (filter (hasNoKey (H:=Literal.host) h ex) [0; 1; 2])
  /\ out = sortPullRequests (Host:=Literal.host) (fun r => info (h r))
                            (deduplicatedPRs (H:=Literal.host) h [0; 1; 2] ex) tt
  /\ removed = (Z.of_nat (length [0; 1; 2]) - Z.of_nat (length out))%Z.
Proof.
  apply (C1_deduplicate_keeps_last_per_key (H:=Literal.host)).
  vm_compute. apply Permutation_refl.
Defined.

(** C2 as stated fails: of two records with the key jira-1, the first
    encountered is dropped and the second is kept. *)
Lemma C2_counterexample :
  let h := Literal.heapOf ticketRecords in
  let ex := Literal.matching "JIRA-1" in
  keyOf (H:=Literal.host) h ex 0 = Some "jira-1"
  /\ keyOf (H:=Literal.host) h ex 1 = Some "jira-1"
  /\ ~ In 0 (fst (deduplicate (H:=Literal.host) h [0; 1; 2] ex tt))
  /\ In 1 (fst (deduplicate (H:=Literal.host) h [0; 1; 2] ex tt)).
Proof.
  vm_compute. repeat split; auto.
  intros [Hx|[Hx|[]]]; discriminate.
Qed.

Lemma C2_witness :
  let h := Literal.heapOf ticketRecords in
  let ex := Literal.matching "JIRA-1" in
  let out := fst (deduplicate (H:=Literal.host) h ([] ++ 0 :: [] ++ 1 :: [2]) ex tt) in
  In 1 out
  /\ (0 <> 1 -> ~ In 0 out)
  /\ (forall r, In r ([] ++ 0 :: [] ++ 1 :: [2]) -> keyOf (H:=Literal.host) h ex r = None -> In r out).
Proof.
  apply (C2_deduplicate_keeps_last_encountered (H:=Literal.host)
           (Literal.heapOf ticketRecords) (Literal.matching "JIRA-1") tt
           [] [] [2] 0 1 (k:="jira-1")).
  - vm_compute. apply Permutation_refl.
  - reflexivity.
  - reflexivity.
  - intros r [<-|[]]. vm_compute. discriminate.
Defined.

(* ===================================================================== *)
(** ** The reference linker                                               *)
(* ===================================================================== *)

Section ReferenceLinker.
Context {E : RegExpEngine} {H : Host}.
Variable h : Heap.
Variable prs : list ref.
Variable reference : RegexTransformer.

Lemma pushChild_info (h1 : Heap) (parent r p : ref) :
  info (pushChild h1 parent r p) = info (h1 p).
Proof.
  unfold pushChild, setChildPrs.
  destruct (childPrs (h1 parent)); destruct (Nat.eqb p parent) eqn:Hp; try reflexivity;
    apply Nat.eqb_eq in Hp; now subst.
Qed.

Lemma pushChild_children (h1 : Heap) (parent r p : ref) :
  childrenOf (pushChild h1 parent r) p
  = childrenOf h1 p ++ (if Nat.eqb parent p then [r] else []).
Proof.
  unfold childrenOf, pushChild, setChildPrs. rewrite (Nat.eqb_sym parent p).
  destruct (childPrs (h1 parent)) eqn:Hc; destruct (Nat.eqb p parent) eqn:Hp; simpl;
    try (now rewrite app_nil_r);
    apply Nat.eqb_eq in Hp; subst; now rewrite Hc.
Qed.

(** The state after the second loop, from any state whose records are
    those of [h]: the roots are the records without a parent, in order,
    and each record has gained the records that resolved to it. *)
Lemma linkStep_fold (l : list ref) (h1 : Heap) (roots1 : list ref) :
  (forall p, info (h1 p) = info (h p)) ->
  let st := fold_left (linkStep (mapByNumber h prs) reference) l (h1, roots1) in
  snd st = roots1 ++ filter (hasNoParent h prs reference) l
  /\ (forall p, info (fst st p) = info (h p))
  /\ (forall p, childrenOf (fst st) p
                = childrenOf h1 p ++ filter (hasParent h prs reference p) l).
Proof.
  revert h1 roots1. induction l as [|r l IH]; intros h1 roots1 Hinfo.
  - simpl. repeat split; auto; intros; now rewrite app_nil_r.
  - cbn [fold_left filter]. unfold linkStep at 2 4 6.
    unfold hasNoParent at 1, hasParent at 1, parentOf. rewrite Hinfo.
    destruct (resolveParent (mapByNumber h prs) (info (h r)) reference) as [parent|] eqn:Hp.
    + destruct (IH (pushChild h1 parent r) roots1) as (Hr & Hi & Hc).
      { intros p. now rewrite pushChild_info. }
      repeat split; auto.
      intros p. rewrite Hc, pushChild_children, <- app_assoc.
      now destruct (Nat.eqb parent p).
    + destruct (IH h1 (roots1 ++ [r])) as (Hr & Hi & Hc); [assumption|].
      repeat split; auto.
      now rewrite Hr, <- app_assoc.
Qed.

Lemma linkReferences_roots :
  snd (linkReferences h prs reference) = filter (hasNoParent h prs reference) prs.
Proof.
  unfold linkReferences.
  now destruct (linkStep_fold prs h [] (fun p => eq_refl)) as (Hr & _ & _).
Qed.

Lemma linkReferences_children (p : ref) :
  childrenOf (fst (linkReferences h prs reference)) p
  = childrenOf h p ++ filter (hasParent h prs reference p) prs.
Proof.
  unfold linkReferences.
  now destruct (linkStep_fold prs h [] (fun p => eq_refl)) as (_ & _ & Hc).
Qed.

Lemma mapByNumber_get_from (n : Z) (l : list ref) (m : JsMap.t Z ref) :
  JsMap.get Z.eqb n
    (fold_left (fun mapped r => JsMap.set Z.eqb (number (info (h r))) r mapped) l m)
  = match lastWith (fun r => Z.eqb (number (info (h r))) n) l with
    | Some r => Some r
    | None => JsMap.get Z.eqb n m
    end.
Proof.
  revert m. induction l as [|r l IH]; intros m; [reflexivity|].
  cbn [fold_left lastWith]. rewrite IH.
  destruct (lastWith (fun r => Z.eqb (number (info (h r))) n) l); [reflexivity|].
  destruct (Z.eqb (number (info (h r))) n) eqn:Hn.
  - apply Z.eqb_eq in Hn. subst. apply (@get_set_same _ _ _ Z_eqb_spec).
  - apply (@get_set_other _ _ _ Z_eqb_spec). intros ->. now rewrite Z.eqb_refl in Hn.
Qed.

(** [mapped] holds, under each number, the last record with that number. *)
Lemma mapByNumber_get (n : Z) :
  JsMap.get Z.eqb n (mapByNumber h prs)
  = lastWith (fun r => Z.eqb (number (info (h r))) n) prs.
Proof.
  unfold mapByNumber. rewrite mapByNumber_get_from.
  now destruct (lastWith (fun r => Z.eqb (number (info (h r))) n) prs).
Qed.

Lemma lastWith_unique {A : Type} (p : A -> bool) (l : list A) (x : A) :
  In x l -> p x = true -> (forall y, In y l -> p y = true -> y = x) ->
  lastWith p l = Some x.
Proof.
  intros Hin Hpx Huniq.
  destruct (lastWith p l) as [y|] eqn:Hl.
  - apply lastWith_Some in Hl. destruct Hl as [Hy Hpy]. f_equal. now apply Huniq.
  - exfalso. clear Huniq. induction l as [|z l IH]; [contradiction|].
    simpl in Hl. destruct (lastWith p l) eqn:Hl'; [discriminate|].
    destruct (p z) eqn:Hpz; [discriminate|].
    destruct Hin as [->|Hin]; [congruence | auto].
Qed.

(** C3, as the code has it. A record of the list is removed from the root
    list exactly when its reference resolves to a record of the list, and it
    is then listed among the childPrs of that record.  A record whose
    reference yields its own number (numbers being unique in the list)
    resolves to itself: it is removed from the root list and listed among
    its own childPrs; and this is the only way for a record to end up both
    removed from the root list and among its own childPrs. *)
Theorem C3_link_self_reference_becomes_own_child
        (Hfresh : forall p, childPrs (h p) = None) :
  let roots := snd (linkReferences h prs reference) in
  let h' := fst (linkReferences h prs reference) in
  (forall r, In r prs -> (In r roots <-> parentOf h prs reference r = None))
  /\ (forall r p, In r prs -> parentOf h prs reference r = Some p -> In r (childrenOf h' p))
  /\ (forall r, In r prs ->
                (~ In r roots /\ In r (childrenOf h' r) <-> parentOf h prs reference r = Some r))
  /\ (forall r first rest,
         In r prs ->
         (forall r', In r' prs -> number (info (h r')) = number (info (h r)) -> r' = r) ->
         extractValues (info (h r)) reference "reference" = Some (first :: rest) ->
         parseInt first = Some (number (info (h r))) ->
         ~ In r roots /\ In r (childrenOf h' r)).
Proof.
  intros roots h'. subst roots h'.
  assert (Hroots : forall r, In r prs ->
            (In r (snd (linkReferences h prs reference)) <-> parentOf h prs reference r = None)).
  { intros r Hin. rewrite linkReferences_roots, filter_In. unfold hasNoParent.
    destruct (parentOf h prs reference r) as [q|].
    - split; [intros [_ Hq] | intros Hq]; discriminate.
    - split; [reflexivity | auto]. }
  assert (Hchild : forall r p, In r (childrenOf (fst (linkReferences h prs reference)) p)
                               <-> In r prs /\ parentOf h prs reference r = Some p).
  { intros r p. rewrite linkReferences_children. unfold childrenOf at 1.
    rewrite Hfresh. simpl. rewrite filter_In. unfold hasParent.
    destruct (parentOf h prs reference r) as [q|].
    - split.
      + intros [Hin Hq]. apply Nat.eqb_eq in Hq. now subst.
      + intros [Hin Hq]. injection Hq as ->. split; [assumption | apply Nat.eqb_refl].
    - split; intros [Hin Hq]; discriminate. }
  assert (Hself : forall r, In r prs -> parentOf h prs reference r = Some r ->
            ~ In r (snd (linkReferences h prs reference))
            /\ In r (childrenOf (fst (linkReferences h prs reference)) r)).
  { intros r Hin Hp. split.
    - rewrite (Hroots r Hin), Hp. discriminate.
    - apply Hchild. auto. }
  split; [exact Hroots|]. split; [|split].
  - intros r p Hin Hp. apply Hchild. auto.
  - intros r Hin. split.
    + intros [_ Hc]. now apply Hchild in Hc.
    + now apply Hself.
  - intros r first rest Hin Huniq Hext Hparse. apply Hself; [assumption|].
    unfold parentOf, resolveParent. rewrite Hext, Hparse, mapByNumber_get.
    apply lastWith_unique; [assumption | apply Z.eqb_refl |].
    intros y Hy Hn. apply Z.eqb_eq in Hn. now apply Huniq.
Qed.

End ReferenceLinker.

(** C3 as stated fails: record 3 refers to itself; it leaves the root list
    and becomes a child of itself. *)
Lemma C3_counterexample :
  let h := Literal.heapOf selfReferring in
  let ex := Literal.matching "3" in
  extractValues (H:=Literal.host) (info (h 0)) ex "reference" = Some ["3"]
  /\ parseInt (Host:=Literal.host) "3" = Some (number (info (h 0)))
  /\ snd (linkReferences (H:=Literal.host) h [0; 1; 2] ex) = [2]
  /\ childPrs (fst (linkReferences (H:=Literal.host) h [0; 1; 2] ex) 0) = Some [0; 1].
Proof. vm_compute. repeat split. Qed.

Lemma C3_witness :
  let h := Literal.heapOf selfReferring in
  let ex := Literal.matching "3" in
  let roots := snd (linkReferences (H:=Literal.host) h [0; 1; 2] ex) in
  let h' := fst (linkReferences (H:=Literal.host) h [0; 1; 2] ex) in
  ~ In 0 roots /\ In 0 (childrenOf h' 0).
Proof.
  intros h ex roots h'.
  destruct (C3_link_self_reference_becomes_own_child (H:=Literal.host) h [0; 1; 2] ex
              (fun p => eq_refl)) as (_ & _ & _ & Hself).
  apply (Hself 0 "3" []).
  - now left.
  - intros r' [<-|[<-|[<-|[]]]]; vm_compute; intros Hn; try reflexivity; discriminate.
  - reflexivity.
  - reflexivity.
Defined.

(* ===================================================================== *)
(** ** The classifier                                                     *)
(* ===================================================================== *)

Section Classifier.
Context {E : RegExpEngine} {H : Host}.

(** A category that is exhaustive, defines rules and leaves its labels
    unset matches no record, whatever its rules say: [matched] is still
    [false] when line 200 asks for it before the rules are looked at. *)
Lemma exhaustive_rules_only_never_matches (category : Category) (rs : list Rule)
      (pr : PullRequestInfo) :
  exhaustive category = Some true ->
  cat_labels category = None ->
  rules category = Some rs ->
  matchesCategory category pr = false.
Proof.
  intros He Hl Hr. unfold matchesCategory. rewrite He, Hl, Hr. reflexivity.
Qed.

Lemma matchCategories_length (cs : list (Category * list string)) (pr : PullRequestInfo)
      (body : string) (m : bool) :
  length (fst (matchCategories cs pr body m)) = length cs.
Proof.
  revert m. induction cs as [|[c l] cs IH]; intros m; simpl; [reflexivity|].
  destruct (isExcluded c pr).
  - specialize (IH m). destruct (matchCategories cs pr body m). simpl in *. now rewrite IH.
  - specialize (IH (m || matchesCategory c pr)).
    destruct (matchCategories cs pr body (m || matchesCategory c pr)). simpl in *.
    now rewrite IH.
Qed.

(** [matchedOnce] after the loop: some category took the record. *)
Lemma matchCategories_matchedOnce (cs : list (Category * list string)) (pr : PullRequestInfo)
      (body : string) (m : bool) :
  snd (matchCategories cs pr body m)
  = m || existsb (fun e => addedToCategory (fst e) pr) cs.
Proof.
  revert m. induction cs as [|[c l] cs IH]; intros m; simpl.
  - now rewrite orb_false_r.
  - unfold addedToCategory at 1. simpl. destruct (isExcluded c pr).
    + specialize (IH m). destruct (matchCategories cs pr body m). simpl in *. exact IH.
    + specialize (IH (m || matchesCategory c pr)).
      destruct (matchCategories cs pr body (m || matchesCategory c pr)). simpl in *.
      rewrite IH. now rewrite orb_assoc.
Qed.

(** One turn of the classifier adds the record to exactly one of the
    ignored, the categorized and the uncategorized records. *)
Lemma classifyStep_counts (h : Heap) (ignoredLabels : list string) (b : Buckets)
      (entry : ref * string) :
  let b' := classifyStep h ignoredLabels b entry in
  let ign := isIgnored ignoredLabels (info (h (fst entry))) in
  length (ignoredPrs b') = length (ignoredPrs b) + (if ign then 1 else 0)
  /\ length (categorizedPrs b') + length (uncategorizedPrs b')
     = length (categorizedPrs b) + length (uncategorizedPrs b) + (if ign then 0 else 1).
Proof.
  unfold classifyStep.
  destruct (isIgnored ignoredLabels (info (h (fst entry)))); simpl.
  - rewrite length_app. simpl. lia.
  - destruct (matchCategories (categorized b) (info (h (fst entry))) (snd entry) false)
      as [cs' matchedOnce].
    destruct matchedOnce; simpl; rewrite length_app; simpl; lia.
Qed.

Lemma classify_counts_from (h : Heap) (ignoredLabels : list string)
      (entries : list (ref * string)) (b : Buckets) :
  let b' := fold_left (classifyStep h ignoredLabels) entries b in
  length (ignoredPrs b')
  = length (ignoredPrs b)
    + length (filter (fun e => isIgnored ignoredLabels (info (h (fst e)))) entries)
  /\ length (categorizedPrs b') + length (uncategorizedPrs b')
     = length (categorizedPrs b) + length (uncategorizedPrs b)
       + length (filter (fun e => negb (isIgnored ignoredLabels (info (h (fst e))))) entries).
Proof.
  revert b. induction entries as [|e entries IH]; intros b.
  - simpl. lia.
  - cbn [fold_left filter].
    destruct (IH (classifyStep h ignoredLabels b e)) as [Hi Hc].
    destruct (classifyStep_counts h ignoredLabels b e) as [Hi1 Hc1].
    cbv zeta in *. rewrite Hi, Hc, Hi1, Hc1.
    destruct (isIgnored ignoredLabels (info (h (fst e)))); simpl; lia.
Qed.

Lemma renderStep_keys (h : Heap) (configuration : Configuration)
      (placeholders : JsMap.t string (list Placeholder))
      (validatedTransformers : list RegexTransformer)
      (st : JsMap.t ref string * JsMap.t string (list string)) (r : ref) :
  JsMap.keys (fst (renderStep h configuration placeholders validatedTransformers st r))
  = addKey (JsMap.keys (fst st)) r.
Proof.
  unfold renderStep. destruct st as [tm pm].
  destruct (fillPrTemplate h r (pr_template configuration) placeholders pm configuration)
    as [filled pm'].
  cbn [fst]. apply keys_set.
Qed.

Lemma renderAll_keys (h : Heap) (configuration : Configuration) (prs : list ref) :
  JsMap.keys (fst (renderAll h configuration prs)) = fold_left addKey prs [].
Proof.
  unfold renderAll.
  generalize (placeholdersBySource configuration) as phs.
  generalize (validateTransformers (transformers configuration)) as vts.
  intros vts phs.
  assert (Hgen : forall st,
            JsMap.keys (fst (fold_left (renderStep h configuration phs vts) prs st))
            = fold_left addKey prs (JsMap.keys (fst st))).
  { induction prs as [|r prs IH]; intros st; [reflexivity|].
    cbn [fold_left]. now rewrite IH, renderStep_keys. }
  apply (Hgen ([], [])).
Qed.

Lemma addKey_fold_spec (prs acc : list ref) :
  NoDup acc ->
  NoDup (fold_left addKey prs acc)
  /\ (forall r, In r (fold_left addKey prs acc) <-> In r acc \/ In r prs)
  /\ (NoDup (acc ++ prs) -> fold_left addKey prs acc = acc ++ prs).
Proof.
  revert acc. induction prs as [|r prs IH]; intros acc Hacc.
  - simpl. repeat split; auto; [tauto | now rewrite app_nil_r].
  - cbn [fold_left]. unfold addKey at 2 4 6.
    destruct (existsb (Nat.eqb r) acc) eqn:Hex.
    + apply (@existsb_eqb_In _ _ nat_eqb_spec) in Hex.
      destruct (IH acc Hacc) as (Hnd & Hin & Heq). split; [assumption|]. split.
      * intros x. rewrite Hin. simpl. split; [tauto|].
        intros [Hx|[<-|Hx]]; auto.
      * intros Hnd'. exfalso. apply NoDup_remove_2 in Hnd'. apply Hnd'.
        apply in_or_app. now left.
    + assert (Hni : ~ In r acc).
      { intros Hi. apply (@existsb_eqb_In _ _ nat_eqb_spec) in Hi. congruence. }
      assert (Hacc' : NoDup (acc ++ [r])).
      { apply NoDup_app; [assumption | repeat constructor; auto |].
        intros x Hx [<-|[]]. contradiction. }
      destruct (IH (acc ++ [r]) Hacc') as (Hnd & Hin & Heq). split; [assumption|]. split.
      * intros x. rewrite Hin, in_app_iff. simpl. tauto.
      * intros Hnd'. rewrite <- app_assoc in Heq. now apply Heq.
Qed.

(** C5. After classification, the count of categorized records plus the
    count of uncategorized records is the number of the records that were
    not routed to the ignored bucket.  The records classified are those of
    the list, each counted once: the texts are kept in a map under the
    record. *)
Theorem C5_classifier_totals (h : Heap) (configuration : Configuration) (prs : list ref) :
  let transformedMap := fst (renderAll h configuration prs) in
  let records := JsMap.keys transformedMap in
  let ignored := fun r => isIgnored (ignore_labels configuration) (info (h r)) in
  let b := classify h configuration transformedMap in
  length (categorizedPrs b) + length (uncategorizedPrs b)
  = length (filter (fun r => negb (ignored r)) records)
  /\ length (ignoredPrs b) = length (filter ignored records)
  /\ length (categorizedPrs b) + length (uncategorizedPrs b) + length (ignoredPrs b)
     = length records
  /\ NoDup records
  /\ (forall r, In r records <-> In r prs)
  /\ (NoDup prs -> records = prs).
Proof.
  intros transformedMap records ignored b.
  assert (Hfilter : forall (p : ref -> bool) (m : JsMap.t ref string),
            length (filter (fun e => p (fst e)) m) = length (filter p (JsMap.keys m))).
  { intros p m. unfold JsMap.keys. induction m as [|e m IH]; simpl; [reflexivity|].
    destruct (p (fst e)); simpl; now rewrite IH. }
  destruct (classify_counts_from h (ignore_labels configuration) transformedMap
              {| categorized := map (fun c => (c, [])) (categories configuration);
                 categorizedPrs := []; ignoredPrs := []; openPrs := [];
                 uncategorizedPrs := [] |}) as [Hi Hc].
  cbv zeta in Hi, Hc. simpl in Hi, Hc. fold (classify h configuration transformedMap) in Hi, Hc.
  fold b in Hi, Hc.
  rewrite (Hfilter (fun r => negb (ignored r))) in Hc.
  rewrite (Hfilter ignored) in Hi. fold records in Hi, Hc.
  destruct (addKey_fold_spec prs (NoDup_nil ref)) as (Hnd & Hin & Heq).
  subst records transformedMap. rewrite renderAll_keys in *.
  split; [exact Hc|]. split; [exact Hi|]. split.
  - rewrite Hc, Hi.
    generalize (fold_left addKey prs []) as l. intros l.
    induction l as [|x l IH]; simpl; [reflexivity|].
    destruct (ignored x); simpl; lia.
  - split; [exact Hnd|]. split.
    + intros r. rewrite Hin. simpl. tauto.
    + exact Heq.
Qed.

Lemma haveEveryElementsArr_more (required ls : list string) (l : string) :
  haveEveryElementsArr required ls = true ->
  haveEveryElementsArr required (ls ++ [l]) = true.
Proof.
  unfold haveEveryElementsArr. rewrite !forallb_forall. intros Hall x Hx.
  specialize (Hall x Hx). rewrite existsb_app, Hall. reflexivity.
Qed.

Lemma haveCommonElementsArr_more (ex ls : list string) (l : string) :
  ~ In l ex ->
  haveCommonElementsArr ex (ls ++ [l]) = haveCommonElementsArr ex ls.
Proof.
  intros Hni. unfold haveCommonElementsArr. induction ex as [|x ex IH]; simpl; [reflexivity|].
  rewrite IH by (intros Hi; apply Hni; now right).
  rewrite existsb_app. simpl. rewrite orb_false_r.
  destruct (x =? l)%string eqn:Hx.
  - apply String.eqb_eq in Hx. subst. exfalso. apply Hni. now left.
  - now rewrite orb_false_r.
Qed.

(** C6, as the code has it. A record that an exhaustive category takes is
    still taken after a label is added to it, provided the label is none of
    the exclude labels of the category (in lower case) and the rules of the
    category, which read the record, hold for the record with the label
    as they did without it. *)
Theorem C6_exhaustive_match_survives_added_label
        (category : Category) (pr : PullRequestInfo) (label : string)
        (Hexh : exhaustive category = Some true)
        (Hdef : isDefined (cat_labels category) || isDefined (rules category) = true)
        (Hmatch : addedToCategory category pr = true)
        (Hexcl : forall ex, exclude_labels category = Some ex -> ~ In label (lowerAll ex))
        (Hrules : forall rs e, rules category = Some rs ->
                               matchesRules rs pr e = true ->
                               matchesRules rs (addLabel pr label) e = true) :
  addedToCategory category (addLabel pr label) = true.
Proof.
  unfold addedToCategory, isExcluded, matchesCategory in *.
  rewrite Hexh, Hdef in *. cbn [isTrue andb] in *.
  assert (Hlabels : labels (addLabel pr label) = labels pr ++ [label]) by reflexivity.
  rewrite Hlabels.
  destruct (exclude_labels category) as [ex|].
  - rewrite haveCommonElementsArr_more by now apply Hexcl.
    destruct (haveCommonElementsArr (lowerAll ex) (labels pr)); [discriminate|].
    destruct (cat_labels category) as [ls|]; [|destruct (rules category); discriminate].
    destruct (haveEveryElementsArr (lowerAll ls) (labels pr)) eqn:Hev;
      [|destruct (rules category); discriminate].
    rewrite (haveEveryElementsArr_more _ _ _ Hev).
    destruct (rules category) as [rs|]; [|reflexivity]. now apply Hrules.
  - destruct (cat_labels category) as [ls|]; [|destruct (rules category); discriminate].
    destruct (haveEveryElementsArr (lowerAll ls) (labels pr)) eqn:Hev;
      [|destruct (rules category); discriminate].
    rewrite (haveEveryElementsArr_more _ _ _ Hev).
    destruct (rules category) as [rs|]; [|reflexivity]. now apply Hrules.
Qed.

End Classifier.

(** C4: the code at the failing input. The category is exhaustive, defines
    the rule fix and leaves its labels unset; the rule holds for the record
    under the all-rules policy; the classifier does not match the record
    into the category and counts it as uncategorized. *)
Lemma C4_exhaustive_rules_only_not_matched :
  let record := Literal.pr 1 "fix the build" "" [] in
  let h := Literal.heapOf [record] in
  let b := classify (H:=Literal.host) h (configWith [fixesByRule]) [(0, "- fix the build")] in
  exhaustive fixesByRule = Some true
  /\ cat_labels fixesByRule = None
  /\ matchesRules (Host:=Literal.host) ["fix"] record true = true
  /\ matchesCategory (H:=Literal.host) fixesByRule record = false
  /\ categorized b = [(fixesByRule, [])]
  /\ categorizedPrs b = []
  /\ uncategorizedPrs b = ["- fix the build"].
Proof. intros record h b. repeat split; reflexivity. Qed.

(** C6 as stated fails: the record with the label bug is taken by the
    exhaustive category; with the label wip added, which the category
    excludes, it is not. *)
Lemma C6_counterexample :
  let record := Literal.pr 1 "crash" "" ["bug"] in
  exhaustive bugsNotWip = Some true
  /\ addedToCategory (H:=Literal.host) bugsNotWip record = true
  /\ addedToCategory (H:=Literal.host) bugsNotWip (addLabel record "wip") = false.
Proof. vm_compute. repeat split. Qed.

Lemma C6_witness :
  let record := Literal.pr 1 "crash" "" ["bug"] in
  addedToCategory (H:=Literal.host) bugsNotWip (addLabel record "urgent") = true.
Proof.
  apply (C6_exhaustive_match_survives_added_label (H:=Literal.host)).
  - reflexivity.
  - reflexivity.
  - reflexivity.
  - intros ex Hex. injection Hex as <-. vm_compute. intros [Hx|[]]. discriminate.
  - intros rs e Hrs. discriminate.
Defined.

(* ===================================================================== *)
(** ** The placeholders                                                   *)
(* ===================================================================== *)




Section Placeholders.
Context {E : RegExpEngine} {H : Host}.

Lemma applyCustomPlaceholder_valid (value : string) (configuration : Configuration)
      (st : string * option (JsMap.t string (list string))) (placeholder : Placeholder)
      (tr : RegexTransformer) (pat : Pattern) :
  validateTransformer (Some (transformer placeholder)) = Some tr ->
  pattern tr = Some pat ->
  applyCustomPlaceholder value configuration st placeholder
  = if customPlaceholderMatched value (re_replace value pat (target tr)) pat
    then taken configuration placeholder (re_replace value pat (target tr)) st
    else st.
Proof.
  intros Hv Hp. unfold applyCustomPlaceholder, taken. destruct st as [transformed prMap].
  rewrite Hv, Hp. cbn [fst snd].
  destruct (customPlaceholderMatched value (re_replace value pat (target tr)) pat);
    [|reflexivity].
  now destruct prMap.
Qed.

(** C7, as the code has it. For a custom placeholder with a replace-style
    extractor whose result is not the empty text: when the result differs
    from the input value the placeholder is treated as matched (the token
    is replaced and the value recorded); when the result equals the input
    value it is treated as matched if and only if the input matches the
    pattern of the extractor. *)
Theorem C7_custom_placeholder_matched_when_nonempty
        (value : string) (configuration : Configuration)
        (st : string * option (JsMap.t string (list string))) (placeholder : Placeholder)
        (tr : RegexTransformer) (pat : Pattern)
        (Hvalid : validateTransformer (Some (transformer placeholder)) = Some tr)
        (Hpat : pattern tr = Some pat)
        (Hnonempty : re_replace value pat (target tr) <> "") :
  let extractedValue := re_replace value pat (target tr) in
  let result := applyCustomPlaceholder value configuration st placeholder in
  (extractedValue <> value ->
   customPlaceholderMatched value extractedValue pat = true
   /\ result = taken configuration placeholder extractedValue st)
  /\ (extractedValue = value ->
      (customPlaceholderMatched value extractedValue pat = true <-> re_match value pat <> None)
      /\ (re_match value pat <> None ->
          result = taken configuration placeholder extractedValue st)
      /\ (re_match value pat = None -> result = st)).
Proof.
  intros extractedValue result. subst result.
  rewrite (@applyCustomPlaceholder_valid value configuration st placeholder tr pat Hvalid Hpat).
  fold extractedValue. fold extractedValue in Hnonempty.
  unfold customPlaceholderMatched, Js.truthy.
  apply String.eqb_neq in Hnonempty. rewrite Hnonempty. cbn [negb andb].
  split.
  - intros Hne. apply String.eqb_neq in Hne. rewrite Hne. cbn [negb orb]. auto.
  - intros Heq. apply String.eqb_eq in Heq. rewrite Heq. cbn [negb orb andb].
    destruct (re_match value pat) as [ms|];
      repeat split; auto; try discriminate; intros Hn; now contradiction Hn.
Qed.

(** C10. A custom placeholder whose replace-style extractor produces the
    empty text from the source value is treated as unmatched, whatever the
    value: nothing is recorded in the per-record map and the token of the
    placeholder is not replaced.  When the placeholder is the only one of
    its source key, [handlePlaceholder] replaces the token of the key and
    nothing else. *)
Theorem C10_empty_extraction_is_unmatched
        (value : string) (configuration : Configuration) (placeholder : Placeholder)
        (tr : RegexTransformer) (pat : Pattern)
        (Hvalid : validateTransformer (Some (transformer placeholder)) = Some tr)
        (Hpat : pattern tr = Some pat)
        (Hempty : re_replace value pat (target tr) = "") :
  customPlaceholderMatched value (re_replace value pat (target tr)) pat = false
  /\ (forall st, applyCustomPlaceholder value configuration st placeholder = st)
  /\ (forall template key placeholders placeholderPrMap,
         JsMap.get String.eqb key placeholders = Some [placeholder] ->
         handlePlaceholder template key value placeholders placeholderPrMap configuration
         = (Js.replaceAll template (token key) (trimmed configuration value),
            placeholderPrMap)).
Proof.
  assert (Hm : customPlaceholderMatched value (re_replace value pat (target tr)) pat = false).
  { rewrite Hempty. reflexivity. }
  assert (Hstep : forall st, applyCustomPlaceholder value configuration st placeholder = st).
  { intros st. rewrite (@applyCustomPlaceholder_valid value configuration st placeholder
                           tr pat Hvalid Hpat).
    now rewrite Hm. }
  split; [exact Hm|]. split; [exact Hstep|].
  intros template key placeholders placeholderPrMap Hget.
  unfold handlePlaceholder. rewrite Hget. cbn [fold_left]. apply Hstep.
Qed.




End Placeholders.

(** C7 as stated fails: the transformer deletes abc, the result for the
    title abc is the empty text, which differs from the input, and the
    placeholder is not treated as matched: the token stays and nothing is
    recorded. *)
Lemma C7_counterexample :
  re_replace (RegExpEngine:=Literal.engine) "abc" "abc" "" = ""
  /\ "" <> "abc"
  /\ handlePlaceholder (H:=Literal.host) "${{T}}" "TITLE" "abc"
       [("TITLE", [deletingPlaceholder])] (Some []) Literal.config
     = ("${{T}}", Some []).
Proof. repeat split; try reflexivity. discriminate. Qed.

Lemma C7_witness :
  customPlaceholderMatched (E:=Literal.engine) "abc-1" "X-1" "abc" = true
  /\ applyCustomPlaceholder (H:=Literal.host) "abc-1" Literal.config ("${{T}}", Some [])
       renamingPlaceholder
     = ("X-1", Some [("T", ["X-1"])]).
Proof.
  destruct (C7_custom_placeholder_matched_when_nonempty (H:=Literal.host)
              "abc-1" Literal.config ("${{T}}", Some []) renamingPlaceholder
              (tr:=Literal.replacing "abc" "X") (pat:="abc")
              eq_refl eq_refl) as [Hdiff _].
  - discriminate.
  - apply Hdiff. discriminate.
Defined.

Lemma C10_witness :
  customPlaceholderMatched (E:=Literal.engine) "abc" "" "abc" = false
  /\ applyCustomPlaceholder (H:=Literal.host) "abc" Literal.config ("${{T}}", Some [])
       deletingPlaceholder
     = ("${{T}}", Some []).
Proof.
  destruct (C10_empty_extraction_is_unmatched (H:=Literal.host)
              "abc" Literal.config deletingPlaceholder
              (tr:=Literal.replacing "abc" "") (pat:="abc")
              eq_refl eq_refl eq_refl) as (Hm & Hstep & _).
  split; [exact Hm | apply Hstep].
Defined.

(* ===================================================================== *)
(** ** Extraction                                                         *)
(* ===================================================================== *)

Section Extraction.
Context {E : RegExpEngine} {H : Host}.

(** X1. [extractValuesFromString] never returns an empty array: it
    returns [null] or at least one value; and every value it returns is a
    text in lower case or the empty text. *)
Theorem X1_extractValuesFromString_null_or_nonempty
        (value : string) (extractor : RegexTransformer) :
  extractValuesFromString value extractor <> Some []
  /\ (forall l x, extractValuesFromString value extractor = Some l -> In x l ->
                  x = "" \/ exists s, x = toLocaleLowerCase s).
Proof.
  unfold extractValuesFromString.
  destruct (pattern extractor) as [pat|]; [|split; [discriminate | intros l x Hl; discriminate]].
  assert (Hfb : forall l x,
             match onEmpty extractor with
             | Some e => Some [toLocaleLowerCase e]
             | None => None
             end = Some l ->
             l <> [] /\ (In x l -> x = "" \/ exists s, x = toLocaleLowerCase s)).
  { intros l x. destruct (onEmpty extractor) as [e|]; [|discriminate].
    intros Hl. injection Hl as <-. split; [discriminate|].
    intros [<-|[]]. right. now exists e. }
  assert (Hmap : forall (ms : list (option string)) x,
             In x (map (fun label => match label with
                                     | Some s => Js.or_else (toLocaleLowerCase s) ""
                                     | None => ""
                                     end) ms) ->
             x = "" \/ exists s, x = toLocaleLowerCase s).
  { intros ms x Hx. apply in_map_iff in Hx. destruct Hx as [[s|] [<- _]]; [|now left].
    unfold Js.or_else. destruct (Js.truthy (toLocaleLowerCase s)); [right; now exists s | now left]. }
  assert (Hrep : forall l x,
             (if negb (re_replace value pat (target extractor) =? "")%string
              then Some [toLocaleLowerCase (re_replace value pat (target extractor))]
              else match onEmpty extractor with
                   | Some e => Some [toLocaleLowerCase e]
                   | None => None
                   end) = Some l ->
             l <> [] /\ (In x l -> x = "" \/ exists s, x = toLocaleLowerCase s)).
  { intros l x. destruct (negb (re_replace value pat (target extractor) =? "")%string).
    - intros Hl. injection Hl as <-. split; [discriminate|].
      intros [<-|[]]. right. eauto.
    - apply Hfb. }
  assert (Hall : forall l x,
             match method extractor with
             | Some "match" =>
                 match re_match value pat with
                 | Some (m :: ms) =>
                     Some (map (fun label => match label with
                                             | Some s => Js.or_else (toLocaleLowerCase s) ""
                                             | None => ""
                                             end) (m :: ms))
                 | _ => match onEmpty extractor with
                        | Some e => Some [toLocaleLowerCase e]
                        | None => None
                        end
                 end
             | _ =>
                 if negb (re_replace value pat (target extractor) =? "")%string
                 then Some [toLocaleLowerCase (re_replace value pat (target extractor))]
                 else match onEmpty extractor with
                      | Some e => Some [toLocaleLowerCase e]
                      | None => None
                      end
             end = Some l ->
             l <> [] /\ (In x l -> x = "" \/ exists s, x = toLocaleLowerCase s)).
  { intros l x Hl.
    destruct (method extractor) as [meth|]; [|now apply Hrep].
    destruct (String.eqb_spec meth "match") as [->|Hne].
    - destruct (re_match value pat) as [[|m ms]|]; try (now apply Hfb).
      injection Hl as <-. split; [discriminate | exact (Hmap (m :: ms) x)].
    - revert Hl.
      repeat match goal with
             | |- context [match ?s with EmptyString => _ | String _ _ => _ end] =>
                 destruct s; try (now apply Hrep)
             | |- context [match ?a with Ascii _ _ _ _ _ _ _ _ => _ end] =>
                 destruct a; try (now apply Hrep)
             | |- context [if ?b then _ else _] =>
                 destruct b; try (now apply Hrep)
             end.
      now contradiction Hne. }
  split.
  - intros Hl. destruct (Hall [] "" Hl) as [Hne _]. now apply Hne.
  - intros l x Hl. now apply (Hall l x Hl).
Qed.

(** The two modes of [extractValuesFromString], by the test
    [extractor.method === 'match']. *)
Lemma extractValuesFromString_modes (value : string) (extractor : RegexTransformer)
      (pat : Pattern) :
  pattern extractor = Some pat ->
  extractValuesFromString value extractor
  = let fallback := match onEmpty extractor with
                    | Some e => Some [toLocaleLowerCase e]
                    | None => None
                    end in
    if match method extractor with Some m => (m =? "match")%string | None => false end
    then match re_match value pat with
         | Some (m :: ms) =>
             Some (map (fun label => match label with
                                     | Some s => Js.or_else (toLocaleLowerCase s) ""
                                     | None => ""
                                     end) (m :: ms))
         | _ => fallback
         end
    else if negb (re_replace value pat (target extractor) =? "")%string
         then Some [toLocaleLowerCase (re_replace value pat (target extractor))]
         else fallback.
Proof.
  intros Hp. unfold extractValuesFromString. rewrite Hp. cbv zeta.
  destruct (method extractor) as [meth|]; [|reflexivity].
  destruct (String.eqb_spec meth "match") as [->|Hne]; [reflexivity|].
  repeat match goal with
         | |- context [match ?s with EmptyString => _ | String _ _ => _ end] =>
             destruct s; try reflexivity
         | |- context [match ?a with Ascii _ _ _ _ _ _ _ _ => _ end] =>
             destruct a; try reflexivity
         | |- context [if ?b then _ else _] =>
             destruct b; try reflexivity
         end.
  all: now contradiction Hne.
Qed.

Lemma extractValuesFromString_not_empty (value : string) (extractor : RegexTransformer)
      (pat : Pattern) :
  pattern extractor = Some pat -> extractValuesFromString value extractor <> Some [].
Proof.
  intros Hp. rewrite (extractValuesFromString_modes value extractor Hp). cbv zeta.
  destruct (match method extractor with Some m => (m =? "match")%string | None => false end).
  - destruct (re_match value pat) as [[|m ms]|]; try discriminate;
      destruct (onEmpty extractor); discriminate.
  - destruct (negb (re_replace value pat (target extractor) =? "")%string); try discriminate.
    destruct (onEmpty extractor); discriminate.
Qed.

Lemma extractValues_fold_flat_map (pr : PullRequestInfo) (extractor : RegexTransformer)
      (use : string) (props : list Property) (acc : list string) :
  fold_left
    (fun results prop =>
       match extractValuesFromString (retrieveProperty pr prop use) extractor with
       | Some values => results ++ values
       | None => results
       end) props acc
  = acc ++ flat_map (fun prop => orNil (extractValuesFromString
                                          (retrieveProperty pr prop use) extractor)) props.
Proof.
  revert acc. induction props as [|p props IH]; intros acc; simpl.
  - now rewrite app_nil_r.
  - rewrite IH.
    destruct (extractValuesFromString (retrieveProperty pr p use) extractor) as [vs|]; simpl.
    + now rewrite app_assoc.
    + reflexivity.
Qed.

(** X2. With [onProperty] set (and a pattern), [extractValues] is never
    [null]: it returns the values extracted from the properties, one
    property after the other in the order of [onProperty], a property
    without a value adding nothing; so it returns the empty array when no
    property yields a value. *)
Theorem X2_extractValues_onProperty_concatenates
        (pr : PullRequestInfo) (extractor : RegexTransformer) (use : string)
        (pat : Pattern) (props : list Property)
        (Hpat : pattern extractor = Some pat)
        (Hprops : onProperty extractor = Some props) :
  extractValues pr extractor use
  = Some (flat_map (fun prop => orNil (extractValuesFromString
                                         (retrieveProperty pr prop use) extractor)) props)
  /\ ((forall prop, In prop props ->
         extractValuesFromString (retrieveProperty pr prop use) extractor = None) ->
      extractValues pr extractor use = Some []).
Proof.
  assert (Heq : extractValues pr extractor use
                = Some (flat_map (fun prop => orNil (extractValuesFromString
                                     (retrieveProperty pr prop use) extractor)) props)).
  { unfold extractValues. rewrite Hpat, Hprops. now rewrite extractValues_fold_flat_map. }
  split; [exact Heq|].
  intros Hnone. rewrite Heq. f_equal. clear Heq Hprops.
  induction props as [|p props IH]; [reflexivity|]. simpl.
  rewrite (Hnone p) by now left. simpl. apply IH.
  intros prop Hin. apply Hnone. now right.
Qed.

(** X3. With a fallback [onEmpty] (and a pattern), [extractValuesFromString]
    always returns a value; with method [match] a text that the pattern
    does not match gets the fallback in lower case.  So a duplicate filter
    on the body with a fallback gives every record a key, and all the
    records that the pattern does not match share one key. *)
Theorem X3_onEmpty_gives_every_record_a_key
        (extractor : RegexTransformer) (pat : Pattern) (fallback : string)
        (Hpat : pattern extractor = Some pat)
        (Hfallback : onEmpty extractor = Some fallback) :
  (forall value, extractValuesFromString value extractor <> None)
  /\ (forall value, method extractor = Some "match" -> re_match value pat = None ->
                    extractValuesFromString value extractor
                    = Some [toLocaleLowerCase fallback])
  /\ (onProperty extractor = None ->
      forall pr, dedupKey extractor pr <> None)
  /\ (onProperty extractor = None -> method extractor = Some "match" ->
      forall pr, re_match (body pr) pat = None ->
                 dedupKey extractor pr = Some (toLocaleLowerCase fallback)).
Proof.
  assert (Hsome : forall value, extractValuesFromString value extractor <> None).
  { intros value. rewrite (extractValuesFromString_modes value extractor Hpat).
    rewrite Hfallback. cbv zeta.
    destruct (match method extractor with Some m => (m =? "match")%string | None => false end).
    - destruct (re_match value pat) as [[|m ms]|]; discriminate.
    - destruct (negb (re_replace value pat (target extractor) =? "")%string); discriminate. }
  assert (Hmiss : forall value, method extractor = Some "match" -> re_match value pat = None ->
                    extractValuesFromString value extractor
                    = Some [toLocaleLowerCase fallback]).
  { intros value Hm Hre. rewrite (extractValuesFromString_modes value extractor Hpat).
    now rewrite Hfallback, Hm, Hre. }
  split; [exact Hsome|]. split; [exact Hmiss|]. split.
  - intros Hprop pr. unfold dedupKey, extractValues. rewrite Hpat, Hprop.
    pose proof (Hsome (body pr)) as Hs.
    pose proof (extractValuesFromString_not_empty (body pr) extractor Hpat) as Hne.
    destruct (extractValuesFromString (body pr) extractor) as [[|k ks]|];
      [now contradiction Hne | discriminate | now contradiction Hs].
  - intros Hprop Hm pr Hre. unfold dedupKey, extractValues. rewrite Hpat, Hprop.
    now rewrite (Hmiss (body pr) Hm Hre).
Qed.

End Extraction.

Lemma X2_witness :
  extractValues (H:=Literal.host) (Literal.pr 1 "JIRA-1 in the title" "JIRA-1 and JIRA-1" [])
                (matchingTitleAndBody "JIRA-1") "label_extractor"
  = Some ["jira-1"; "jira-1"; "jira-1"].
Proof.
  destruct (X2_extractValues_onProperty_concatenates (H:=Literal.host)
              (Literal.pr 1 "JIRA-1 in the title" "JIRA-1 and JIRA-1" [])
              (matchingTitleAndBody "JIRA-1") "label_extractor"
              (pat:="JIRA-1") (props:=["title"; "body"]) eq_refl eq_refl) as [Heq _].
  rewrite Heq. reflexivity.
Defined.

Lemma X3_witness :
  dedupKey (H:=Literal.host) (matchingOr "JIRA-1" "NONE") (Literal.pr 3 "third" "no ticket" [])
  = Some "none".
Proof.
  destruct (X3_onEmpty_gives_every_record_a_key (H:=Literal.host)
              (matchingOr "JIRA-1" "NONE") (pat:="JIRA-1") (fallback:="NONE")
              eq_refl eq_refl) as (_ & _ & _ & Hmiss).
  apply (Hmiss eq_refl eq_refl). reflexivity.
Defined.

(* ===================================================================== *)
(** ** The deduplicator: further properties                               *)
(* ===================================================================== *)

Lemma set_absent {V : Type} (k : string) (v : V) (m : JsMap.t string V) :
  existsb (String.eqb k) (JsMap.keys m) = false ->
  JsMap.set String.eqb k v m = m ++ [(k, v)].
Proof.
  unfold JsMap.keys. induction m as [|[k' v'] m IH]; simpl; [reflexivity|].
  intros Hex. apply orb_false_elim in Hex. destruct Hex as [Hk Hex].
  rewrite Hk. now rewrite IH.
Qed.

Lemma filter_partition_length {A : Type} (p : A -> bool) (l : list A) :
  length (filter (fun x => negb (p x)) l) + length (filter p l) = length l.
Proof.
  induction l as [|x l IH]; simpl; [reflexivity|].
  destruct (p x); simpl; lia.
Qed.

Lemma filter_partition_perm {A : Type} (p : A -> bool) (l : list A) :
  Permutation (filter (fun x => negb (p x)) l ++ filter p l) l.
Proof.
  induction l as [|x l IH]; simpl; [constructor|].
  destruct (p x); simpl.
  - apply Permutation_sym, Permutation_cons_app, Permutation_sym, IH.
  - now constructor.
Qed.

Section DeduplicatorMore.
Context {E : RegExpEngine} {H : Host}.
Variable h : Heap.
Variable extractor : RegexTransformer.

Lemma dedupMapFrom_length_le (l : list ref) (m : JsMap.t string ref) :
  length (dedupMapFrom h extractor l m)
  <= length m + length (filter (fun r => negb (hasNoKey h extractor r)) l).
Proof.
  revert m. induction l as [|r l IH]; intros m; [simpl; lia|].
  rewrite dedupMapFrom_cons. cbn [filter].
  destruct (keyOf h extractor r) as [k|] eqn:Hk.
  - assert (Hr : hasNoKey h extractor r = false) by (unfold hasNoKey; now rewrite Hk).
    rewrite Hr. cbn [negb length].
    specialize (IH (JsMap.set String.eqb k r m)). rewrite length_set in IH.
    revert IH. destruct (existsb (String.eqb k) (JsMap.keys m)); lia.
  - assert (Hr : hasNoKey h extractor r = true) by (unfold hasNoKey; now rewrite Hk).
    rewrite Hr. cbn [negb]. apply IH.
Qed.

Lemma deduplicatedPRs_length_le (prs : list ref) :
  length (deduplicatedPRs h prs extractor) <= length prs.
Proof.
  rewrite deduplicatedPRs_eq, length_app. unfold JsMap.values. rewrite length_map.
  pose proof (dedupMapFrom_length_le prs []) as Hle.
  pose proof (filter_partition_length (hasNoKey h extractor) prs). simpl in Hle. lia.
Qed.

Lemma deduplicatedPRs_subset (prs : list ref) (r : ref) :
  In r (deduplicatedPRs h prs extractor) -> In r prs.
Proof.
  intros Hin. destruct (keyOf h extractor r) as [k|] eqn:Hk.
  - assert (Hf : In r (filter (hasKey h extractor k) (deduplicatedPRs h prs extractor))).
    { apply filter_In. split; [assumption|]. unfold hasKey. rewrite Hk. apply String.eqb_refl. }
    rewrite survivors_by_key in Hf.
    destruct (lastWith (hasKey h extractor k) prs) as [x|] eqn:Hl; [|contradiction].
    destruct Hf as [->|[]]. now apply lastWith_Some in Hl.
  - assert (Hf : In r (filter (hasNoKey h extractor) (deduplicatedPRs h prs extractor))).
    { apply filter_In. split; [assumption|]. unfold hasNoKey. now rewrite Hk. }
    rewrite survivors_without_key in Hf. now apply filter_In in Hf.
Qed.

Lemma keyed_values_NoDup (m : JsMap.t string ref) :
  keyed h extractor m -> NoDup (JsMap.values m).
Proof.
  unfold JsMap.values.
  induction m as [|[k r] m IH]; intros [Hnd Hall]; simpl; [constructor|].
  assert (Hm : keyed h extractor m).
  { split; [now inversion Hnd | intros e He; apply Hall; now right]. }
  constructor; [|now apply IH].
  intros Hin. apply in_map_iff in Hin. destruct Hin as [[k' r'] [Hr He]]. simpl in Hr. subst r'.
  assert (Hk : keyOf h extractor r = Some k) by (apply (Hall (k, r)); now left).
  assert (Hk' : keyOf h extractor r = Some k') by (apply (Hall (k', r)); now right).
  assert (k' = k) by congruence. subst k'.
  inversion Hnd as [|? ? Hni _]. apply Hni.
  unfold JsMap.keys. apply in_map_iff. now exists (k, r).
Qed.

Lemma deduplicatedPRs_NoDup (prs : list ref) :
  NoDup prs -> NoDup (deduplicatedPRs h prs extractor).
Proof.
  intros Hnd. rewrite deduplicatedPRs_eq.
  assert (Hkeyed : keyed h extractor (dedupMapFrom h extractor prs []))
    by (apply dedupMapFrom_keyed, keyed_empty).
  apply NoDup_app.
  - now apply keyed_values_NoDup.
  - now apply NoDup_filter.
  - intros r Hv Hu. apply filter_In in Hu. destruct Hu as [_ Hu].
    unfold JsMap.values in Hv. apply in_map_iff in Hv. destruct Hv as [[k r'] [Hr He]].
    simpl in Hr. subst r'. destruct Hkeyed as [_ Hall]. specialize (Hall (k, r) He).
    simpl in Hall. unfold hasNoKey in Hu. now rewrite Hall in Hu.
Qed.

(** X4. The deduplicator invents nothing: every record of its output is a
    record of its input, the output is not longer than the input, so the
    count of removed records is never negative, and an input without a
    record twice gives an output without a record twice. *)
Theorem X4_deduplicate_output_within_input
        (prs : list ref) (sort : Sort)
        (Hsort : Permutation
                   (sortPullRequests (fun r => info (h r)) (deduplicatedPRs h prs extractor) sort)
                   (deduplicatedPRs h prs extractor)) :
  let out := fst (deduplicate h prs extractor sort) in
  (forall r, In r out -> In r prs)
  /\ length out <= length prs
  /\ (0 <= snd (deduplicate h prs extractor sort))%Z
  /\ (NoDup prs -> NoDup out).
Proof.
  unfold deduplicate. cbn [fst snd]. split; [|split; [|split]].
  - intros r Hin. apply (Permutation_in _ Hsort) in Hin. now apply deduplicatedPRs_subset in Hin.
  - rewrite (Permutation_length Hsort). apply deduplicatedPRs_length_le.
  - pose proof (deduplicatedPRs_length_le prs). lia.
  - intros Hnd. apply (Permutation_NoDup (Permutation_sym Hsort)).
    now apply deduplicatedPRs_NoDup.
Qed.

(** When no key occurs twice in the list (nor in the map so far), every
    keyed record enters the map as a new entry, in order. *)
Lemma dedupMapFrom_distinct (l : list ref) (m : JsMap.t string ref) :
  (forall k, length (filter (hasKey h extractor k) l)
             + (if existsb (String.eqb k) (JsMap.keys m) then 1 else 0) <= 1) ->
  JsMap.values (dedupMapFrom h extractor l m)
  = JsMap.values m ++ filter (fun r => negb (hasNoKey h extractor r)) l.
Proof.
  revert m. induction l as [|r l IH]; intros m Hd.
  - simpl. now rewrite app_nil_r.
  - rewrite dedupMapFrom_cons. cbn [filter].
    assert (Hnk : hasNoKey h extractor r
                  = match keyOf h extractor r with Some _ => false | None => true end)
      by reflexivity.
    rewrite Hnk. clear Hnk.
    destruct (keyOf h extractor r) as [k0|] eqn:Hk0; cbn [negb].
    + assert (Hr : hasKey h extractor k0 r = true)
        by (unfold hasKey; rewrite Hk0; apply String.eqb_refl).
      pose proof (Hd k0) as Hd0. cbn [filter] in Hd0. rewrite Hr in Hd0. cbn [length] in Hd0.
      destruct (existsb (String.eqb k0) (JsMap.keys m)) eqn:Hex; [lia|].
      rewrite (set_absent _ _ _ Hex). rewrite IH.
      * unfold JsMap.values. rewrite map_app. simpl. now rewrite <- app_assoc.
      * intros k. unfold JsMap.keys. rewrite map_app, existsb_app. simpl.
        rewrite orb_false_r. fold (JsMap.keys m).
        destruct (String.eqb_spec k k0) as [->|Hne].
        -- rewrite Hex. simpl. lia.
        -- rewrite orb_false_r. specialize (Hd k). cbn [filter] in Hd.
           assert (Hrk : hasKey h extractor k r = false).
           { unfold hasKey. rewrite Hk0. apply String.eqb_neq. congruence. }
           now rewrite Hrk in Hd.
    + apply IH. intros k. specialize (Hd k). cbn [filter] in Hd.
      assert (Hrk : hasKey h extractor k r = false) by (unfold hasKey; now rewrite Hk0).
      now rewrite Hrk in Hd.
Qed.

(** X5. The deduplicator is idempotent: run on its own output, it removes
    no record, and its second output holds the records of the first. *)
Theorem X5_deduplicate_twice_removes_nothing
        (prs : list ref) (sort : Sort)
        (Hsort1 : Permutation
                    (sortPullRequests (fun r => info (h r)) (deduplicatedPRs h prs extractor) sort)
                    (deduplicatedPRs h prs extractor))
        (Hsort2 : forall l : list ref,
            Permutation (sortPullRequests (fun r => info (h r)) l sort) l) :
  let out1 := fst (deduplicate h prs extractor sort) in
  snd (deduplicate h out1 extractor sort) = 0%Z
  /\ Permutation (fst (deduplicate h out1 extractor sort)) out1.
Proof.
  unfold deduplicate. cbn [fst snd].
  set (out1 := sortPullRequests (fun r => info (h r)) (deduplicatedPRs h prs extractor) sort).
  assert (Hd : forall k, length (filter (hasKey h extractor k) out1)
                         + (if existsb (String.eqb k) (JsMap.keys (@nil (string * ref)))
                            then 1 else 0) <= 1).
  { intros k. simpl.
    rewrite (Permutation_length (Permutation_filter_compat (hasKey h extractor k) Hsort1)).
    rewrite survivors_by_key.
    destruct (lastWith (hasKey h extractor k) prs); simpl; lia. }
  assert (Hperm : Permutation (deduplicatedPRs h out1 extractor) out1).
  { rewrite deduplicatedPRs_eq, (dedupMapFrom_distinct out1 [] Hd). simpl.
    apply filter_partition_perm. }
  split.
  - rewrite (Permutation_length Hperm). lia.
  - transitivity (deduplicatedPRs h out1 extractor); [apply Hsort2 | exact Hperm].
Qed.

End DeduplicatorMore.

Lemma X4_witness :
  let h := Literal.heapOf ticketRecords in
  let out := fst (deduplicate (H:=Literal.host) h [0; 1; 2] (Literal.matching "JIRA-1") tt) in
  (forall r, In r out -> In r [0; 1; 2])
  /\ length out <= length [0; 1; 2]
  /\ Z.le 0 (snd (deduplicate (H:=Literal.host) h [0; 1; 2] (Literal.matching "JIRA-1") tt))
  /\ (NoDup [0; 1; 2] -> NoDup out).
Proof.
  apply (X4_deduplicate_output_within_input (H:=Literal.host)).
  vm_compute. apply Permutation_refl.
Defined.

Lemma X5_witness :
  let h := Literal.heapOf ticketRecords in
  let out1 := fst (deduplicate (H:=Literal.host) h [0; 1; 2] (Literal.matching "JIRA-1") tt) in
  snd (deduplicate (H:=Literal.host) h out1 (Literal.matching "JIRA-1") tt) = 0%Z
  /\ Permutation (fst (deduplicate (H:=Literal.host) h out1 (Literal.matching "JIRA-1") tt)) out1.
Proof.
  apply (X5_deduplicate_twice_removes_nothing (H:=Literal.host)).
  - vm_compute. apply Permutation_refl.
  - intros l. apply sortByNumber_perm.
Defined.

(* ===================================================================== *)
(** ** The reference linker: further properties                           *)
(* ===================================================================== *)

Lemma lastWith_None {A : Type} (p : A -> bool) (l : list A) :
  (forall y, In y l -> p y = false) -> lastWith p l = None.
Proof.
  induction l as [|x l IH]; intros Hall; simpl; [reflexivity|].
  rewrite IH by (intros y Hy; apply Hall; now right).
  now rewrite (Hall x) by now left.
Qed.

Section ReferenceLinkerMore.
Context {E : RegExpEngine} {H : Host}.
Variable h : Heap.
Variable prs : list ref.
Variable reference : RegexTransformer.

(** X6. The reference linker only regroups the records: the root list is
    the list without the records whose reference resolves, in the same
    order; every record keeps its data; and the records that resolve to a
    record are appended to its childPrs in the order of the list.  So no
    record is lost: the roots and the attached records together are as
    many as the records of the list. *)
Theorem X6_linkReferences_regroups :
  let h' := fst (linkReferences h prs reference) in
  let roots := snd (linkReferences h prs reference) in
  roots = filter (hasNoParent h prs reference) prs
  /\ (forall p, info (h' p) = info (h p))
  /\ (forall p, childrenOf h' p
                = childrenOf h p ++ filter (hasParent h prs reference p) prs)
  /\ length roots
     + length (filter (fun r => negb (hasNoParent h prs reference r)) prs)
     = length prs.
Proof.
  cbv zeta. unfold linkReferences.
  destruct (linkStep_fold h prs reference prs h [] (fun p => eq_refl)) as (Hr & Hi & Hc).
  cbv zeta in Hr, Hi, Hc. simpl in Hr.
  split; [exact Hr|]. split; [exact Hi|]. split; [exact Hc|].
  rewrite Hr. rewrite Nat.add_comm. apply filter_partition_length.
Qed.

(** X7. A record is attached only to a record of the list, the one that
    carries the number its reference names (the last one, if several do).
    A reference to a number that no record of the list carries, and a
    reference that [parseInt] does not read as a number, leave the record
    in the root list. *)
Theorem X7_parent_is_the_referenced_record :
  (forall r p, parentOf h prs reference r = Some p ->
               In p prs
               /\ exists first rest,
                   extractValues (info (h r)) reference "reference" = Some (first :: rest)
                   /\ parseInt first = Some (number (info (h p))))
  /\ (forall r first rest n,
         In r prs ->
         extractValues (info (h r)) reference "reference" = Some (first :: rest) ->
         parseInt first = Some n ->
         (forall q, In q prs -> number (info (h q)) <> n) ->
         In r (snd (linkReferences h prs reference)))
  /\ (forall r first rest,
         In r prs ->
         extractValues (info (h r)) reference "reference" = Some (first :: rest) ->
         parseInt first = None ->
         In r (snd (linkReferences h prs reference))).
Proof.
  split; [|split].
  - intros r p. unfold parentOf, resolveParent.
    destruct (extractValues (info (h r)) reference "reference") as [[|first rest]|];
      try discriminate.
    destruct (parseInt first) as [n|] eqn:Hparse; [|discriminate].
    rewrite mapByNumber_get. intros Hl. apply lastWith_Some in Hl. destruct Hl as [Hin Hn].
    apply Z.eqb_eq in Hn. split; [assumption|].
    exists first, rest. split; [reflexivity|]. now rewrite Hparse, Hn.
  - intros r first rest n Hin Hext Hparse Hnone.
    rewrite linkReferences_roots. apply filter_In. split; [assumption|].
    unfold hasNoParent, parentOf, resolveParent. rewrite Hext, Hparse, mapByNumber_get.
    rewrite lastWith_None; [reflexivity|].
    intros q Hq. apply Z.eqb_neq. now apply Hnone.
  - intros r first rest Hin Hext Hparse.
    rewrite linkReferences_roots. apply filter_In. split; [assumption|].
    unfold hasNoParent, parentOf, resolveParent. now rewrite Hext, Hparse.
Qed.

End ReferenceLinkerMore.

Lemma X7_witness :
  let h := Literal.heapOf selfReferring in
  In 0 [0; 1; 2]
  /\ exists first rest,
      extractValues (H:=Literal.host) (info (h 1)) (Literal.matching "3") "reference"
      = Some (first :: rest)
      /\ parseInt (Host:=Literal.host) first = Some (number (info (h 0))).
Proof.
  intros h.
  destruct (X7_parent_is_the_referenced_record (H:=Literal.host) h [0; 1; 2]
              (Literal.matching "3")) as (Hparent & _ & _).
  apply (Hparent 1 0). reflexivity.
Defined.

(* ===================================================================== *)
(** ** The label extractor                                                *)
(* ===================================================================== *)

Section LabelExtractor.
Context {E : RegExpEngine} {H : Host}.

Lemma withLabels_same (pr : PullRequestInfo) : withLabels pr (labels pr ++ []) = pr.
Proof. destruct pr. unfold withLabels. simpl. now rewrite app_nil_r. Qed.

Lemma labelsGrow_refl (h : Heap) (prs : list ref) : labelsGrow h h prs.
Proof.
  intros r. split; [|split]; auto.
  exists []. symmetry. apply withLabels_same.
Qed.

Lemma labelsGrow_trans (h1 h2 h3 : Heap) (prs : list ref) :
  labelsGrow h1 h2 prs -> labelsGrow h2 h3 prs -> labelsGrow h1 h3 prs.
Proof.
  intros H12 H23 r.
  destruct (H12 r) as ([a Ha] & Hc1 & Ho1). destruct (H23 r) as ([b Hb] & Hc2 & Ho2).
  split; [|split].
  - exists (a ++ b). rewrite Hb, Ha. unfold withLabels. simpl. now rewrite app_assoc.
  - congruence.
  - intros Hni. rewrite Ho2, Ho1; auto.
Qed.

Lemma pushLabels_grows (h : Heap) (prs : list ref) (r : ref) (extracted : list string) :
  In r prs -> labelsGrow h (pushLabels h r extracted) prs.
Proof.
  intros Hin r'. unfold pushLabels.
  destruct (Nat.eqb r' r) eqn:Hr; simpl.
  - apply Nat.eqb_eq in Hr. subst r'. split; [|split].
    + now exists extracted.
    + reflexivity.
    + intros Hni. contradiction.
  - split; [|split]; auto. exists []. symmetry. apply withLabels_same.
Qed.

Lemma extractLabels_inner_grows (extractor : RegexTransformer) (prs l : list ref) (h : Heap) :
  incl l prs ->
  labelsGrow h
    (fold_left
       (fun h2 r =>
          match extractValues (info (h2 r)) extractor "label_extractor" with
          | Some extracted => pushLabels h2 r extracted
          | None => h2
          end) l h) prs.
Proof.
  revert h. induction l as [|r l IH]; intros h Hincl; [apply labelsGrow_refl|].
  cbn [fold_left].
  apply labelsGrow_trans
    with (h2 := match extractValues (info (h r)) extractor "label_extractor" with
                | Some extracted => pushLabels h r extracted
                | None => h
                end).
  - destruct (extractValues (info (h r)) extractor "label_extractor").
    + apply pushLabels_grows. apply Hincl. now left.
    + apply labelsGrow_refl.
  - apply IH. intros x Hx. apply Hincl. now right.
Qed.

(** X8. The label extractor only appends labels: after it, every record
    has the labels it had, in their order, followed by the extracted ones;
    nothing else of a record changes, its childPrs included; and a record
    that is not in the list is left as it was. *)
Theorem X8_extractLabels_only_appends
        (h : Heap) (prs : list ref) (labelExtractors : list RegexTransformer) :
  labelsGrow h (extractLabels h prs labelExtractors) prs.
Proof.
  unfold extractLabels. revert h.
  induction labelExtractors as [|extractor exs IH]; intros h; [apply labelsGrow_refl|].
  cbn [fold_left].
  eapply labelsGrow_trans; [|apply IH].
  apply extractLabels_inner_grows. apply incl_refl.
Qed.

End LabelExtractor.

(* ===================================================================== *)
(** ** The classifier: what every list holds                              *)
(* ===================================================================== *)

Lemma nth_all_false {A : Type} (i : nat) (l : list A) :
  nth i (map (fun _ => false) l) false = false.
Proof.
  revert i. induction l as [|x l IH]; intros [|i]; simpl; auto.
Qed.

Lemma map_snd_filter_cons {A B : Type} (p : A * B -> bool) (e : A * B) (es : list (A * B)) :
  map snd (filter p (e :: es)) = (if p e then [snd e] else []) ++ map snd (filter p es).
Proof. simpl. now destruct (p e). Qed.

Section ClassifierLists.
Context {E : RegExpEngine} {H : Host}.

Lemma matchCategories_fst_nth (cur : list (Category * list string)) (pr : PullRequestInfo)
      (body : string) (m : bool) (i : nat) (c : Category) (l : list string) :
  nth_error cur i = Some (c, l) ->
  nth_error (fst (matchCategories cur pr body m)) i
  = Some (c, if addedToCategory c pr then l ++ [body] else l).
Proof.
  revert m i. induction cur as [|[c0 l0] cur IH]; intros m i Hn; [now destruct i|].
  cbn [matchCategories]. unfold addedToCategory.
  destruct (isExcluded c0 pr) eqn:Hex.
  - specialize (IH m). destruct (matchCategories cur pr body m) as [rest' m'].
    cbn [fst] in *. destruct i as [|i]; simpl in *.
    + injection Hn as <- <-. now rewrite Hex.
    + now apply IH.
  - specialize (IH (m || matchesCategory c0 pr)).
    destruct (matchCategories cur pr body (m || matchesCategory c0 pr)) as [rest' m'].
    cbn [fst] in *. destruct i as [|i]; simpl in *.
    + injection Hn as <- <-. now rewrite Hex.
    + now apply IH.
Qed.

Lemma matchCategories_fst_categories (cur : list (Category * list string))
      (pr : PullRequestInfo) (body : string) (m : bool) :
  map fst (fst (matchCategories cur pr body m)) = map fst cur.
Proof.
  revert m. induction cur as [|[c0 l0] cur IH]; intros m; [reflexivity|].
  cbn [matchCategories]. destruct (isExcluded c0 pr).
  - specialize (IH m). destruct (matchCategories cur pr body m). simpl in *. now rewrite IH.
  - specialize (IH (m || matchesCategory c0 pr)).
    destruct (matchCategories cur pr body (m || matchesCategory c0 pr)). simpl in *.
    now rewrite IH.
Qed.

Lemma addToCatchAll_categories (cur : list (Category * list string)) (body : string) :
  map fst (addToCatchAll cur body) = map fst cur.
Proof.
  induction cur as [|[c0 l0] cur IH]; [reflexivity|]. cbn [addToCatchAll].
  destruct (match cat_labels c0 with
            | None => true
            | Some ls => Nat.eqb (length ls) 0
            end && negb (isDefined (rules c0))); simpl; [reflexivity | now rewrite IH].
Qed.

Lemma addToCatchAll_nth (cur : list (Category * list string)) (body : string)
      (i : nat) (c : Category) (l : list string) :
  nth_error cur i = Some (c, l) ->
  nth_error (addToCatchAll cur body) i
  = Some (c, if nth i (firstCatchAll (map fst cur)) false then l ++ [body] else l).
Proof.
  revert i. induction cur as [|[c0 l0] cur IH]; intros i Hn; [now destruct i|].
  cbn [addToCatchAll map firstCatchAll fst]. unfold isCatchAll.
  destruct (match cat_labels c0 with
            | None => true
            | Some ls => Nat.eqb (length ls) 0
            end && negb (isDefined (rules c0))).
  - destruct i as [|i]; simpl in *.
    + now injection Hn as <- <-.
    + now rewrite nth_all_false.
  - destruct i as [|i]; simpl in *.
    + now injection Hn as <- <-.
    + now apply IH.
Qed.

Lemma existsb_added_map (cur : list (Category * list string)) (pr : PullRequestInfo) :
  existsb (fun e => addedToCategory (fst e) pr) cur = takenBySome (map fst cur) pr.
Proof.
  unfold takenBySome. induction cur as [|e cur IH]; simpl; [reflexivity | now rewrite IH].
Qed.

(** One turn of the classifier, list by list. *)
Lemma classifyStep_lists (h : Heap) (ignoredLabels : list string) (b : Buckets)
      (entry : ref * string) :
  let b' := classifyStep h ignoredLabels b entry in
  let pr := info (h (fst entry)) in
  let cs := map fst (categorized b) in
  let ign := isIgnored ignoredLabels pr in
  map fst (categorized b') = cs
  /\ ignoredPrs b' = ignoredPrs b ++ (if ign then [snd entry] else [])
  /\ openPrs b'
     = openPrs b ++ (if negb ign && (status pr =? "open")%string then [snd entry] else [])
  /\ categorizedPrs b'
     = categorizedPrs b ++ (if negb ign && takenBySome cs pr then [snd entry] else [])
  /\ uncategorizedPrs b'
     = uncategorizedPrs b
       ++ (if negb ign && negb (takenBySome cs pr) then [snd entry] else [])
  /\ (forall i c l,
         nth_error (categorized b) i = Some (c, l) ->
         nth_error (categorized b') i
         = Some (c, l ++ (if negb ign && entersCategory cs i c pr then [snd entry] else []))).
Proof.
  cbv zeta. unfold classifyStep.
  destruct (isIgnored ignoredLabels (info (h (fst entry)))); cbn [negb andb].
  - cbn [categorized ignoredPrs openPrs categorizedPrs uncategorizedPrs].
    rewrite !app_nil_r. repeat split; auto.
    intros i c l Hn. now rewrite app_nil_r.
  - pose proof (matchCategories_matchedOnce (categorized b) (info (h (fst entry)))
                  (snd entry) false) as Hm.
    pose proof (matchCategories_fst_categories (categorized b) (info (h (fst entry)))
                  (snd entry) false) as Hc.
    pose proof (fun i c l => @matchCategories_fst_nth (categorized b) (info (h (fst entry)))
                               (snd entry) false i c l) as Hn.
    destruct (matchCategories (categorized b) (info (h (fst entry))) (snd entry) false)
      as [cur' matchedOnce].
    cbn [fst snd] in Hm, Hc, Hn. rewrite existsb_added_map in Hm. cbn [orb] in Hm.
    subst matchedOnce.
    destruct (takenBySome (map fst (categorized b)) (info (h (fst entry)))) eqn:Htaken;
      cbn [negb categorized ignoredPrs openPrs categorizedPrs uncategorizedPrs].
    + rewrite !app_nil_r. repeat split; auto.
      * now destruct (status (info (h (fst entry))) =? "open")%string; rewrite ?app_nil_r.
      * intros i c l Hi. rewrite (Hn i c l Hi). unfold entersCategory. rewrite Htaken.
        cbn [negb]. rewrite andb_false_r, orb_false_r.
        now destruct (addedToCategory c (info (h (fst entry)))); rewrite ?app_nil_r.
    + rewrite !app_nil_r. repeat split; auto.
      * now rewrite addToCatchAll_categories.
      * now destruct (status (info (h (fst entry))) =? "open")%string; rewrite ?app_nil_r.
      * intros i c l Hi. specialize (Hn i c l Hi).
        assert (Hadd : addedToCategory c (info (h (fst entry))) = false).
        { unfold takenBySome in Htaken.
          destruct (addedToCategory c (info (h (fst entry)))) eqn:Ha; [|reflexivity].
          assert (Hex : existsb (fun c0 => addedToCategory c0 (info (h (fst entry))))
                                (map fst (categorized b)) = true).
          { apply existsb_exists. exists c. split; [|assumption].
            apply nth_error_In in Hi. apply in_map_iff. now exists (c, l). }
          congruence. }
        rewrite Hadd in Hn. rewrite (addToCatchAll_nth _ _ _ Hn), Hc.
        unfold entersCategory. rewrite Hadd, Htaken. cbn [negb orb]. rewrite andb_true_r.
        now destruct (nth i (firstCatchAll (map fst (categorized b))) false);
          rewrite ?app_nil_r.
Qed.

Lemma classify_lists_from (h : Heap) (ignoredLabels : list string)
      (entries : list (ref * string)) (b : Buckets) :
  let b' := fold_left (classifyStep h ignoredLabels) entries b in
  let pr := fun e : ref * string => info (h (fst e)) in
  let cs := map fst (categorized b) in
  let ign := fun e => isIgnored ignoredLabels (pr e) in
  map fst (categorized b') = cs
  /\ ignoredPrs b' = ignoredPrs b ++ map snd (filter ign entries)
  /\ openPrs b'
     = openPrs b
       ++ map snd (filter (fun e => negb (ign e) && (status (pr e) =? "open")%string) entries)
  /\ categorizedPrs b'
     = categorizedPrs b
       ++ map snd (filter (fun e => negb (ign e) && takenBySome cs (pr e)) entries)
  /\ uncategorizedPrs b'
     = uncategorizedPrs b
       ++ map snd (filter (fun e => negb (ign e) && negb (takenBySome cs (pr e))) entries)
  /\ (forall i c l,
         nth_error (categorized b) i = Some (c, l) ->
         nth_error (categorized b') i
         = Some (c, l ++ map snd (filter (fun e => negb (ign e)
                                                   && entersCategory cs i c (pr e))
                                         entries))).
Proof.
  cbv zeta. revert b. induction entries as [|e entries IH]; intros b.
  - simpl. rewrite !app_nil_r. repeat split; auto. intros i c l Hn. now rewrite app_nil_r.
  - cbn [fold_left].
    destruct (classifyStep_lists h ignoredLabels b e) as (Hc & Hi & Ho & Hk & Hu & Hn).
    cbv zeta in Hc, Hi, Ho, Hk, Hu, Hn.
    destruct (IH (classifyStep h ignoredLabels b e)) as (Hc' & Hi' & Ho' & Hk' & Hu' & Hn').
    rewrite Hc in *.
    rewrite Hc', Hi', Ho', Hk', Hu', Hi, Ho, Hk, Hu.
    rewrite !map_snd_filter_cons, <- !app_assoc.
    repeat split; auto.
    intros i c l Hl. rewrite (Hn' i c _ (Hn i c l Hl)).
    now rewrite map_snd_filter_cons, <- app_assoc.
Qed.

(** X9. The classifier fills its four flat lists in the order of the
    records: the ignored list holds the texts of the records that carry
    an ignore label, and none of these is in any other list; of the other
    records, the open list holds the open ones, the categorized list the
    ones that some category takes, the uncategorized list the ones that no
    category takes; and the categories stay in their configured order. *)
Theorem X9_classifier_flat_lists
        (h : Heap) (configuration : Configuration) (transformedMap : JsMap.t ref string) :
  let b := classify h configuration transformedMap in
  let pr := fun e : ref * string => info (h (fst e)) in
  let cs := categories configuration in
  let ign := fun e => isIgnored (ignore_labels configuration) (pr e) in
  map fst (categorized b) = cs
  /\ ignoredPrs b = map snd (filter ign transformedMap)
  /\ openPrs b
     = map snd (filter (fun e => negb (ign e) && (status (pr e) =? "open")%string)
                       transformedMap)
  /\ categorizedPrs b
     = map snd (filter (fun e => negb (ign e) && takenBySome cs (pr e)) transformedMap)
  /\ uncategorizedPrs b
     = map snd (filter (fun e => negb (ign e) && negb (takenBySome cs (pr e)))
                       transformedMap).
Proof.
  cbv zeta. unfold classify.
  destruct (classify_lists_from h (ignore_labels configuration) transformedMap
              {| categorized := map (fun c => (c, [])) (categories configuration);
                 categorizedPrs := []; ignoredPrs := []; openPrs := [];
                 uncategorizedPrs := [] |}) as (Hc & Hi & Ho & Hk & Hu & _).
  cbv zeta in Hc, Hi, Ho, Hk, Hu.
  cbn [categorized ignoredPrs openPrs categorizedPrs uncategorizedPrs app] in Hc, Hi, Ho, Hk, Hu.
  rewrite map_map in Hc, Hk, Hu. cbn [fst] in Hc, Hk, Hu. rewrite map_id in Hc, Hk, Hu.
  repeat split; assumption.
Qed.

(** X10. The list of a category holds, in the order of the records, the
    texts of the records that are not ignored and that the category takes
    (it carries none of the exclude labels and matches); the first
    category without labels and rules holds in addition the texts of the
    records that no category takes.  Whether a category takes a record
    does not depend on the other categories. *)
Theorem X10_classifier_category_lists
        (h : Heap) (configuration : Configuration) (transformedMap : JsMap.t ref string)
        (i : nat) (c : Category)
        (Hc : nth_error (categories configuration) i = Some c) :
  let b := classify h configuration transformedMap in
  let pr := fun e : ref * string => info (h (fst e)) in
  let ign := fun e => isIgnored (ignore_labels configuration) (pr e) in
  nth_error (categorized b) i
  = Some (c, map snd (filter (fun e => negb (ign e)
                                       && entersCategory (categories configuration) i c (pr e))
                             transformedMap)).
Proof.
  cbv zeta. unfold classify.
  destruct (classify_lists_from h (ignore_labels configuration) transformedMap
              {| categorized := map (fun c => (c, [])) (categories configuration);
                 categorizedPrs := []; ignoredPrs := []; openPrs := [];
                 uncategorizedPrs := [] |}) as (_ & _ & _ & _ & _ & Hn).
  cbv zeta in Hn. cbn [categorized] in Hn.
  rewrite map_map in Hn. cbn [fst] in Hn. rewrite map_id in Hn.
  rewrite (Hn i c []); [reflexivity|].
  now rewrite nth_error_map, Hc.
Qed.

End ClassifierLists.

Lemma X10_witness :
  let record := Literal.pr 1 "crash" "" ["bug"] in
  let h := Literal.heapOf [record] in
  nth_error (categorized (classify (H:=Literal.host) h (configWith [bugsNotWip])
                                   [(0, "- crash")])) 0
  = Some (bugsNotWip, ["- crash"]).
Proof.
  intros record h.
  rewrite (X10_classifier_category_lists (H:=Literal.host) h (configWith [bugsNotWip])
             [(0, "- crash")] 0 (c:=bugsNotWip) eq_refl).
  reflexivity.
Defined.

(* ===================================================================== *)
(** ** The sections of the changelog                                      *)
(* ===================================================================== *)

Lemma string_app_assoc (a b c : string) : ((a ++ b) ++ c = a ++ (b ++ c))%string.
Proof. induction a as [|x a IH]; simpl; [reflexivity | now rewrite IH]. Qed.

Lemma string_app_nil_r (a : string) : (a ++ "" = a)%string.
Proof. induction a as [|x a IH]; simpl; [reflexivity | now rewrite IH]. Qed.

Section Assembly.
Context {E : RegExpEngine} {H : Host}.

Lemma joinLines_start (start : string) (lines : list string) :
  joinLines start lines = (start ++ joinLines "" lines)%string.
Proof.
  unfold joinLines. revert start. induction lines as [|x lines IH]; intros start; simpl.
  - now rewrite string_app_nil_r.
  - rewrite IH. rewrite (IH (x ++ nl)%string). now rewrite string_app_assoc.
Qed.

Lemma withTitle_start (start : string) (category : Category) :
  withTitle start category = (start ++ withTitle "" category)%string.
Proof.
  unfold withTitle. destruct (cat_title category) as [t|]; [|now rewrite string_app_nil_r].
  destruct (Js.truthy t); [reflexivity | now rewrite string_app_nil_r].
Qed.

(** The text that one category adds to the changelog. *)
Lemma buildSections_step (start : string) (entry : Category * list string) :
  match snd entry with
  | _ :: _ => (joinLines (withTitle start (fst entry)) (snd entry) ++ nl)%string
  | [] =>
      match empty_content (fst entry) with
      | Some ec => (withTitle start (fst entry) ++ ec ++ nl ++ nl)%string
      | None => start
      end
  end
  = (start ++ buildSections [entry])%string.
Proof.
  unfold buildSections. cbn [fold_left].
  destruct (snd entry) as [|l ls].
  - destruct (empty_content (fst entry)) as [ec|]; [|now rewrite string_app_nil_r].
    rewrite withTitle_start. now rewrite string_app_assoc.
  - rewrite joinLines_start, withTitle_start.
    rewrite (joinLines_start (withTitle "" (fst entry))).
    now rewrite !string_app_assoc.
Qed.

Lemma buildSections_from (start : string) (cs : list (Category * list string)) :
  fold_left
    (fun changelog entry =>
       match snd entry with
       | _ :: _ => (joinLines (withTitle changelog (fst entry)) (snd entry) ++ nl)%string
       | [] =>
           match empty_content (fst entry) with
           | Some ec => (withTitle changelog (fst entry) ++ ec ++ nl ++ nl)%string
           | None => changelog
           end
       end) cs start
  = (start ++ buildSections cs)%string.
Proof.
  revert start. induction cs as [|e cs IH]; intros start.
  - simpl. now rewrite string_app_nil_r.
  - unfold buildSections. cbn [fold_left].
    rewrite IH. rewrite (IH (match snd e with
                             | _ :: _ => _
                             | [] => _
                             end)).
    rewrite (buildSections_step start e), (buildSections_step "" e).
    now rewrite string_app_assoc.
Qed.

(** X11. The changelog is made of the sections of the categories, one
    after the other in the order of the categories, and the section of a
    category depends on that category alone: a category with texts gives
    its title (when it has one), its texts line by line and an empty line;
    a category without texts gives its title and its [empty_content], or
    nothing at all when it has no [empty_content]. *)
Theorem X11_buildSections_concatenates_sections
        (cs1 cs2 : list (Category * list string)) :
  buildSections (cs1 ++ cs2) = (buildSections cs1 ++ buildSections cs2)%string
  /\ (forall c line lines,
         buildSections [(c, line :: lines)]
         = (withTitle "" c ++ joinLines "" (line :: lines) ++ nl)%string)
  /\ (forall c ec, empty_content c = Some ec ->
                   buildSections [(c, [])] = (withTitle "" c ++ ec ++ nl ++ nl)%string)
  /\ (forall c, empty_content c = None -> buildSections [(c, [])] = "").
Proof.
  split; [|split; [|split]].
  - unfold buildSections at 1. rewrite fold_left_app.
    fold (buildSections cs1). apply buildSections_from.
  - intros c line lines. unfold buildSections. cbn [fold_left fst snd].
    now rewrite joinLines_start, string_app_assoc.
  - intros c ec Hec. unfold buildSections. cbn [fold_left fst snd]. now rewrite Hec.
  - intros c Hec. unfold buildSections. cbn [fold_left fst snd]. now rewrite Hec.
Qed.

End Assembly.

(* ===================================================================== *)
(** ** The indexed array placeholders                                     *)
(* ===================================================================== *)

Lemma to_int_not_pos_nil (z : Z) : Z.to_int z <> Decimal.Pos Decimal.Nil.
Proof.
  intros Hz. pose proof (DecimalZ.of_to z) as Hof. rewrite Hz in Hof.
  simpl in Hof. subst z. discriminate.
Qed.

Lemma to_int_not_neg_nil (z : Z) : Z.to_int z <> Decimal.Neg Decimal.Nil.
Proof.
  intros Hz. pose proof (DecimalZ.of_to z) as Hof. rewrite Hz in Hof.
  simpl in Hof. subst z. discriminate.
Qed.

(** A number is read back from its decimal text. *)
Lemma toString_read_back (z : Z) :
  NilZero.int_of_string (Js.toString z) = Some (Z.to_int z).
Proof.
  unfold Js.toString. apply NilZero.isi; [apply to_int_not_pos_nil | apply to_int_not_neg_nil].
Qed.

Lemma natToString_inj (a b : nat) : Js.natToString a = Js.natToString b -> a = b.
Proof.
  unfold Js.natToString. intros Heq.
  pose proof (toString_read_back (Z.of_nat a)) as Ha.
  pose proof (toString_read_back (Z.of_nat b)) as Hb.
  rewrite Heq, Hb in Ha. injection Ha as Ha.
  apply (f_equal Z.of_int) in Ha. rewrite !DecimalZ.of_to in Ha. lia.
Qed.

Lemma natToString_not_star (a : nat) : Js.natToString a <> "*".
Proof.
  intros Heq. pose proof (toString_read_back (Z.of_nat a)) as Ha.
  unfold Js.natToString in Heq. rewrite Heq in Ha. discriminate.
Qed.

Lemma string_app_inv_head (p a b : string) : (p ++ a = p ++ b)%string -> a = b.
Proof.
  induction p as [|c p IH]; simpl; [auto|]. intros Heq. injection Heq as Heq. auto.
Qed.

Lemma string_app_inv_bracket (a b : string) : (a ++ "]" = b ++ "]")%string -> a = b.
Proof.
  revert b. induction a as [|c a IH]; intros [|d b]; simpl; intros Heq.
  - reflexivity.
  - injection Heq as _ Heq. destruct b; discriminate.
  - injection Heq as _ Heq. destruct a; discriminate.
  - injection Heq as -> Heq. f_equal. auto.
Qed.

(** The key of the value at an index. *)
Lemma indexKey_inj (key : string) (a b : nat) :
  (key ++ "[" ++ Js.natToString a ++ "]" = key ++ "[" ++ Js.natToString b ++ "]")%string ->
  a = b.
Proof.
  intros Heq. apply string_app_inv_head in Heq. simpl in Heq. injection Heq as Heq.
  apply string_app_inv_bracket in Heq. now apply natToString_inj.
Qed.

Lemma indexKey_not_star (key : string) (a : nat) :
  (key ++ "[" ++ Js.natToString a ++ "]")%string <> (key ++ "[*]")%string.
Proof.
  intros Heq. apply string_app_inv_head in Heq. simpl in Heq. injection Heq as Heq.
  change "*]" with ("*" ++ "]")%string in Heq.
  apply string_app_inv_bracket in Heq. now apply natToString_not_star in Heq.
Qed.

Lemma fillIndexed_get_other (key k : string) (s : nat) (l : list string)
      (m : JsMap.t string string) :
  (forall j, (key ++ "[" ++ Js.natToString (s + j) ++ "]")%string <> k) ->
  JsMap.get String.eqb k
    (fold_left
       (fun m' iv => JsMap.set String.eqb
                       (key ++ "[" ++ Js.natToString (fst iv) ++ "]")%string (snd iv) m')
       (combine (seq s (length l)) l) m)
  = JsMap.get String.eqb k m.
Proof.
  revert s m. induction l as [|x l IH]; intros s m Hk; [reflexivity|].
  cbn [length seq combine fold_left fst snd]. rewrite IH.
  - apply (@get_set_other _ _ _ string_eqb_spec). intros ->.
    apply (Hk 0). now rewrite Nat.add_0_r.
  - intros j. specialize (Hk (S j)). now rewrite Nat.add_succ_r in Hk.
Qed.

Lemma fillIndexed_get (key : string) (s : nat) (l : list string)
      (m : JsMap.t string string) (i : nat) (v : string) :
  nth_error l i = Some v ->
  JsMap.get String.eqb (key ++ "[" ++ Js.natToString (s + i) ++ "]")%string
    (fold_left
       (fun m' iv => JsMap.set String.eqb
                       (key ++ "[" ++ Js.natToString (fst iv) ++ "]")%string (snd iv) m')
       (combine (seq s (length l)) l) m)
  = Some v.
Proof.
  revert s m i. induction l as [|x l IH]; intros s m i Hn; [now destruct i|].
  cbn [length seq combine fold_left fst snd].
  destruct i as [|i].
  - simpl in Hn. injection Hn as ->. rewrite Nat.add_0_r.
    rewrite fillIndexed_get_other.
    + apply (@get_set_same _ _ _ string_eqb_spec).
    + intros j Heq. apply indexKey_inj in Heq. lia.
  - simpl in Hn. rewrite Nat.add_succ_r. apply (IH (S s)). exact Hn.
Qed.

(** X12. After [fillArrayPlaceholders], the key [KEY[i]] holds the [i]-th
    value of the array, for every index of the array and whatever the map
    held before; the keys of two indices never coincide, and none of them
    is the key [KEY[*]]. *)
Theorem X12_fillArrayPlaceholders_lookup
        (placeholderMap : JsMap.t string string) (key : string) (values : list string)
        (i : nat) (v : string)
        (Hi : nth_error values i = Some v) :
  JsMap.get String.eqb (key ++ "[" ++ Js.natToString i ++ "]")%string
            (fillArrayPlaceholders placeholderMap key values)
  = Some v.
Proof.
  unfold fillArrayPlaceholders. destruct values as [|x values]; [now destruct i|].
  rewrite (@get_set_other _ _ _ string_eqb_spec) by apply indexKey_not_star.
  unfold indexed. apply (fillIndexed_get key 0 (x :: values) placeholderMap i Hi).
Qed.

Lemma X12_witness :
  JsMap.get String.eqb "ASSIGNEES[1]" (fillArrayPlaceholders [] "ASSIGNEES" ["ann"; "bob"])
  = Some "bob".
Proof.
  apply (X12_fillArrayPlaceholders_lookup [] "ASSIGNEES" ["ann"; "bob"] 1). reflexivity.
Defined.

(* ===================================================================== *)
(** ** The pipeline as a whole                                            *)
(* ===================================================================== *)

Lemma addKey_fold_length (prs acc : list ref) :
  length (fold_left addKey prs acc) <= length acc + length prs.
Proof.
  revert acc. induction prs as [|r prs IH]; intros acc; simpl; [lia|].
  specialize (IH (addKey acc r)). unfold addKey in *.
  destruct (existsb (Nat.eqb r) acc); [lia|]. rewrite length_app in IH. simpl in IH. lia.
Qed.

Section Pipeline.
Context {E : RegExpEngine} {H : Host}.

Lemma linkStage_length (configuration : Configuration) (st : Heap * list ref) :
  length (snd (linkStage configuration st)) <= length (snd st).
Proof.
  unfold linkStage. destruct (reference configuration) as [rx|]; [|lia].
  destruct (validateTransformer (Some rx)) as [tr|]; [|lia].
  rewrite linkReferences_roots. apply filter_length_le.
Qed.

Lemma dedupStage_length (configuration : Configuration) (h : Heap) (prs : list ref) :
  (forall (read : ref -> PullRequestInfo) (l : list ref),
      length (sortPullRequests read l (sort configuration)) = length l) ->
  length (dedupStage configuration h prs) <= length prs.
Proof.
  intros Hlen. unfold dedupStage. destruct (duplicate_filter configuration) as [rx|]; [|lia].
  destruct (validateTransformer (Some rx)) as [tr|]; [|lia].
  unfold deduplicate. cbn [fst]. rewrite Hlen. apply deduplicatedPRs_length_le.
Qed.

Lemma classify_counts_le (h : Heap) (configuration : Configuration) (prs : list ref) :
  let b := classify h configuration (fst (renderAll h configuration prs)) in
  length (categorizedPrs b) + length (uncategorizedPrs b) <= length prs
  /\ length (openPrs b) <= length prs.
Proof.
  cbv zeta. unfold classify.
  set (tm := fst (renderAll h configuration prs)).
  set (b0 := {| categorized := map (fun c => (c, [])) (categories configuration);
                categorizedPrs := []; ignoredPrs := []; openPrs := [];
                uncategorizedPrs := [] |}).
  assert (Htm : length tm <= length prs).
  { pose proof (renderAll_keys h configuration prs) as Hk. fold tm in Hk.
    unfold JsMap.keys in Hk. apply (f_equal (@length ref)) in Hk. rewrite length_map in Hk.
    rewrite Hk. apply (addKey_fold_length prs []). }
  destruct (classify_counts_from h (ignore_labels configuration) tm b0) as [_ Hc].
  destruct (classify_lists_from h (ignore_labels configuration) tm b0) as (_ & _ & Ho & _).
  cbv zeta in Hc, Ho. split.
  - rewrite Hc. simpl.
    pose proof (filter_length_le
                  (fun e => negb (isIgnored (ignore_labels configuration) (info (h (fst e)))))
                  tm). lia.
  - rewrite Ho. simpl. rewrite length_map.
    pose proof (filter_length_le
                  (fun e => negb (isIgnored (ignore_labels configuration) (info (h (fst e))))
                            && (status (info (h (fst e))) =? "open")%string)
                  tm). lia.
Qed.

(** X13. For a record list that is not empty, [buildChangelog] hands out
    the counts of the categorized and of the uncategorized records, and
    together they are at most the number of the records given: linking and
    deduplication only take records away, and a record is counted once.
    The count of open records is handed out only when it is positive, and
    it is at most the number of the records too.  The sort is assumed to
    return as many records as it is given. *)
Theorem X13_buildChangelog_counts_within_input
        (diffInfo : DiffInfo) (pr0 : PullRequestInfo) (rest : list PullRequestInfo)
        (options : ReleaseNotesOptions)
        (Hlen : forall (read : ref -> PullRequestInfo) (l : list ref),
            length (sortPullRequests read l (sort (configuration options))) = length l) :
  let out := buildChangelog diffInfo (pr0 :: rest) options in
  (exists c u, categorized_prs out = Some c /\ uncategorized_prs out = Some u
               /\ c + u <= length (pr0 :: rest))
  /\ (forall o, open_prs out = Some o -> 0 < o <= length (pr0 :: rest)).
Proof.
  unfold buildChangelog. cbv beta iota zeta.
  match goal with
  | |- context [linkStage ?c ?st] =>
      pose proof (linkStage_length c st) as Hlink;
      assert (H0 : length (snd st) = length (pr0 :: rest))
        by (cbn [snd]; rewrite Hlen; apply length_seq);
      destruct (linkStage c st) as [h1 prs1]
  end.
  cbn [snd] in Hlink, H0. cbv beta iota.
  pose proof (dedupStage_length (configuration options) h1 prs1 Hlen) as Hdedup.
  match goal with
  | |- context [renderAll ?h2 ?c ?prs2] =>
      pose proof (classify_counts_le h2 c prs2) as Hcount; cbv zeta in Hcount;
      destruct (renderAll h2 c prs2) as [transformedMap placeholderPrMap]
  end.
  cbn [fst] in Hcount. destruct Hcount as [Hcu Hopen]. cbv beta iota.
  match goal with
  | |- context [replacePlaceholders ?t ?a ?m ?p ?pm ?c] =>
      destruct (replacePlaceholders t a m p pm c) as [t1 prMap1]
  end.
  cbv beta iota. cbn [categorized_prs uncategorized_prs open_prs]. split.
  - eexists. eexists. split; [reflexivity|]. split; [reflexivity|]. lia.
  - intros o.
    match goal with
    | |- context [openPrs ?b] => destruct (openPrs b) as [|x xs] eqn:Hb
    end; [discriminate|].
    intros Ho. injection Ho as <-. simpl in *. lia.
Qed.

End Pipeline.

Lemma X13_witness :
  let out := buildChangelog (H:=Literal.host) (Build_DiffInfo 1 2 3 5 1) ticketRecords
                            literalOptions in
  (exists c u, categorized_prs out = Some c /\ uncategorized_prs out = Some u
               /\ c + u <= length ticketRecords)
  /\ (forall o, open_prs out = Some o -> 0 < o <= length ticketRecords).
Proof.
  apply (X13_buildChangelog_counts_within_input (H:=Literal.host)).
  intros read l. apply Permutation_length. apply sortByNumber_perm.
Defined.

(* ===================================================================== *)
(** ** Catch-all category, order of the categories, one label extractor   *)
(* ===================================================================== *)


Section ClassifierMore.
Context {E : RegExpEngine} {H : Host}.

(** A category without labels and without rules takes no record by
    itself. *)
Lemma catchAll_takes_nothing (c : Category) (pr : PullRequestInfo) :
  cat_labels c = None -> rules c = None -> addedToCategory c pr = false.
Proof.
  intros Hl Hr. unfold addedToCategory, matchesCategory. rewrite Hl, Hr.
  cbn [isDefined orb]. rewrite andb_false_r. now destruct (isExcluded c pr).
Qed.

Lemma firstCatchAll_first (cs : list Category) (i : nat) (c : Category) :
  nth_error cs i = Some c -> isCatchAll c = true ->
  (forall j c', j < i -> nth_error cs j = Some c' -> isCatchAll c' = false) ->
  nth i (firstCatchAll cs) false = true.
Proof.
  revert i. induction cs as [|c0 cs IH]; intros i Hc Hcatch Hfirst; [now destruct i|].
  cbn [firstCatchAll]. destruct i as [|i].
  - simpl in Hc. injection Hc as ->. now rewrite Hcatch.
  - rewrite (Hfirst 0 c0) by (simpl; auto; lia). cbn [nth].
    apply IH; [exact Hc | exact Hcatch |].
    intros j c' Hj Hn. apply (Hfirst (S j) c'); [lia | exact Hn].
Qed.

Lemma firstCatchAll_later (cs : list Category) (i j : nat) (c' : Category) :
  j < i -> nth_error cs j = Some c' -> isCatchAll c' = true ->
  nth i (firstCatchAll cs) false = false.
Proof.
  revert i j. induction cs as [|c0 cs IH]; intros i j Hj Hn Hcatch; [now destruct j|].
  cbn [firstCatchAll]. destruct i as [|i]; [lia|].
  destruct (isCatchAll c0) eqn:H0; cbn [nth].
  - apply nth_all_false.
  - destruct j as [|j].
    + simpl in Hn. injection Hn as ->. congruence.
    + apply (IH i j); [lia | exact Hn | exact Hcatch].
Qed.

(** X14. A category that leaves both its labels and its rules undefined
    takes no record by itself.  When no category before it passes the
    test of line 230 (labels undefined or an empty list, and rules
    undefined), its list is exactly the list of the uncategorized records,
    so every record shown under it is counted as uncategorized; when a
    category before it passes that test, its list stays empty. *)
Theorem X14_catch_all_holds_the_uncategorized
        (h : Heap) (configuration : Configuration) (transformedMap : JsMap.t ref string)
        (i : nat) (c : Category)
        (Hc : nth_error (categories configuration) i = Some c)
        (Hlabels : cat_labels c = None)
        (Hrules : rules c = None) :
  let b := classify h configuration transformedMap in
  let cs := categories configuration in
  (forall pr, addedToCategory c pr = false)
  /\ ((forall j c', j < i -> nth_error cs j = Some c' -> isCatchAll c' = false) ->
      nth_error (categorized b) i = Some (c, uncategorizedPrs b))
  /\ (forall j c', j < i -> nth_error cs j = Some c' -> isCatchAll c' = true ->
                   nth_error (categorized b) i = Some (c, []))
  /\ nth_error (categorized b) i
     = Some (c, if nth i (firstCatchAll cs) false then uncategorizedPrs b else []).
Proof.
  cbv zeta.
  assert (Hflag : nth_error (categorized (classify h configuration transformedMap)) i
                  = Some (c, if nth i (firstCatchAll (categories configuration)) false
                             then uncategorizedPrs (classify h configuration transformedMap)
                             else [])).
  { unfold classify.
    destruct (classify_lists_from h (ignore_labels configuration) transformedMap
                {| categorized := map (fun c => (c, [])) (categories configuration);
                   categorizedPrs := []; ignoredPrs := []; openPrs := [];
                   uncategorizedPrs := [] |}) as (_ & _ & _ & _ & Hu & Hn).
    cbv zeta in Hu, Hn. cbn [categorized uncategorizedPrs app] in Hu, Hn.
    rewrite map_map in Hu, Hn. cbn [fst] in Hu, Hn. rewrite map_id in Hu, Hn.
    rewrite (Hn i c []) by now rewrite nth_error_map, Hc.
    rewrite Hu. cbn [app]. f_equal. f_equal. clear Hu Hn.
    destruct (nth i (firstCatchAll (categories configuration)) false) eqn:Hflag.
    - f_equal. apply filter_ext. intros e. unfold entersCategory.
      now rewrite Hflag, (catchAll_takes_nothing c _ Hlabels Hrules).
    - induction transformedMap as [|e es IH]; [reflexivity|]. cbn [filter].
      unfold entersCategory at 1.
      rewrite Hflag, (catchAll_takes_nothing c _ Hlabels Hrules). cbn [orb andb].
      rewrite andb_false_r. exact IH. }
  assert (Hcatch : isCatchAll c = true) by (unfold isCatchAll; now rewrite Hlabels, Hrules).
  split; [intros pr; now apply catchAll_takes_nothing|]. split; [|split].
  - intros Hfirst. rewrite Hflag.
    now rewrite (@firstCatchAll_first (categories configuration) i c Hc Hcatch Hfirst).
  - intros j c' Hj Hn Hc'. rewrite Hflag.
    now rewrite (@firstCatchAll_later (categories configuration) i j c' Hj Hn Hc').
  - exact Hflag.
Qed.


(** X16. One label extractor on a list without a record twice: every
    record of the list gets the values extracted from it, as it was before
    the extractor ran, appended to its labels, and nothing when the
    extraction is [null]; the other records are left as they were. *)
Theorem X16_one_label_extractor_appends_the_extracted
        (h : Heap) (prs : list ref) (extractor : RegexTransformer)
        (Hnodup : NoDup prs) :
  let h' := extractLabels h prs [extractor] in
  (forall r, In r prs ->
             info (h' r)
             = withLabels (info (h r))
                 (labels (info (h r))
                  ++ orNil (extractValues (info (h r)) extractor "label_extractor"))
             /\ childPrs (h' r) = childPrs (h r))
  /\ (forall r, ~ In r prs -> h' r = h r).
Proof.
  cbv zeta. unfold extractLabels. cbn [fold_left].
  revert h. induction prs as [|r0 prs IH]; intros h.
  - split; [intros r []|reflexivity].
  - cbn [fold_left]. cbv beta.
    set (h1 := match extractValues (info (h r0)) extractor "label_extractor" with
               | Some extracted => pushLabels h r0 extracted
               | None => h
               end).
    assert (Hother : forall r, r <> r0 -> h1 r = h r).
    { intros r Hne. subst h1.
      destruct (extractValues (info (h r0)) extractor "label_extractor"); [|reflexivity].
      unfold pushLabels. apply Nat.eqb_neq in Hne. now rewrite Hne. }
    assert (Hself : info (h1 r0)
                    = withLabels (info (h r0))
                        (labels (info (h r0))
                         ++ orNil (extractValues (info (h r0)) extractor "label_extractor"))
                    /\ childPrs (h1 r0) = childPrs (h r0)).
    { subst h1.
      destruct (extractValues (info (h r0)) extractor "label_extractor") as [ex|].
      - unfold pushLabels. now rewrite Nat.eqb_refl.
      - split; [|reflexivity]. simpl. symmetry. apply withLabels_same. }
    inversion Hnodup as [|? ? Hni Hnd]; subst.
    destruct (IH Hnd h1) as [Hin Hout]. split.
    + intros r [<-|Hr].
      * pose proof (Hout r0 Hni) as Hx. destruct Hself as [Hs1 Hs2]. split.
        -- exact (eq_trans (f_equal info Hx) Hs1).
        -- exact (eq_trans (f_equal childPrs Hx) Hs2).
      * assert (Hne : r <> r0) by (intros ->; contradiction).
        destruct (Hin r Hr) as [Hi Hc]. rewrite (Hother r Hne) in Hi, Hc.
        split; [exact Hi | exact Hc].
    + intros r Hr.
      assert (Hnr : ~ In r prs) by (intros Hi; apply Hr; now right).
      assert (Hne : r <> r0) by (intros ->; apply Hr; now left).
      exact (eq_trans (Hout r Hnr) (Hother r Hne)).
Qed.

End ClassifierMore.

Lemma X14_witness :
  let record := Literal.pr 1 "cleanup" "" [] in
  let h := Literal.heapOf [record] in
  let b := classify (H:=Literal.host) h (configWith [bugsNotWip; otherChanges])
                    [(0, "- cleanup")] in
  nth_error (categorized b) 1 = Some (otherChanges, uncategorizedPrs b).
Proof.
  intros record h b.
  destruct (X14_catch_all_holds_the_uncategorized (H:=Literal.host) h
              (configWith [bugsNotWip; otherChanges]) [(0, "- cleanup")] 1 (c:=otherChanges)
              eq_refl eq_refl eq_refl) as (_ & Hfirst & _).
  apply Hfirst. intros j c' Hj Hn.
  destruct j as [|j]; [|lia]. simpl in Hn. injection Hn as <-. reflexivity.
Defined.


Lemma X16_witness :
  let h := Literal.heapOf ticketRecords in
  let h' := extractLabels (H:=Literal.host) h [0; 1; 2] [labelFromBody "JIRA-1"] in
  labels (info (h' 0)) = ["jira-1"] /\ labels (info (h' 2)) = [].
Proof.
  intros h h'.
  assert (Hnodup : NoDup [0; 1; 2]) by (repeat constructor; simpl; intuition discriminate).
  destruct (X16_one_label_extractor_appends_the_extracted (H:=Literal.host) h
              (labelFromBody "JIRA-1") Hnodup) as [Hin _].
  destruct (Hin 0) as [H0 _]; [now left|].
  destruct (Hin 2) as [H2 _]; [right; right; now left|].
  subst h'. rewrite H0, H2. split; reflexivity.
Defined.

(* ===================================================================== *)
(** ** Tokens replaced in a text                                          *)
(* ===================================================================== *)














Section Rendering.
Context {E : RegExpEngine} {H : Host}.






End Rendering.

(* ===================================================================== *)
(** ** The empty record list                                              *)
(* ===================================================================== *)

Section EmptyInput.
Context {E : RegExpEngine} {H : Host}.


End EmptyInput.


(** A per-record token in the empty template is not replaced; the tokens
    of the document-level keys are, every occurrence of them. *)
Example empty_template_document_level_only :
  replaceEmptyTemplate (H:=Literal.host) "${{TITLE}} by ${{OWNER}}: ${{FROM_TAG}}..${{TO_TAG}}"
                       literalOptions
  = "${{TITLE}} by octo: v1..v2".
Proof. reflexivity. Qed.

(* ===================================================================== *)
(** ** The second pass: the tracked custom placeholders                   *)
(* ===================================================================== *)






Section SecondPass.
Context {E : RegExpEngine} {H : Host}.





End SecondPass.



(** The second pass on a document: the values of TICKET follow one
    another; the assignees are joined with a comma and a blank. *)
Example custom_star_and_builtin_star :
  replacePrPlaceholders (H:=Literal.host) "Tickets: ${{TICKET[*]}}; first: ${{TICKET[0]}}"
    [("TICKET", ["A-1"; "B-2"])] Literal.config
  = "Tickets: A-1B-2; first: A-1"
  /\ fillArrayPlaceholders [] "ASSIGNEES" ["ann"; "bob"]
     = [("ASSIGNEES[0]", "ann"); ("ASSIGNEES[1]", "bob"); ("ASSIGNEES[*]", "ann, bob")].
Proof. split; reflexivity. Qed.

(* ===================================================================== *)
(** ** The built-ins on examples                                          *)
(* ===================================================================== *)

Example replaceAll_every_occurrence :
  Js.replaceAll "a-${{X}}-b-${{X}}" "${{X}}" "v" = "a-v-b-v".
Proof. reflexivity. Qed.

Example replaceAll_dollar_patterns : Js.replaceAll "aaa" "aa" "[$&|$$]" = "[aa|$]a".
Proof. reflexivity. Qed.

Example toString_decimal :
  Js.natToString 0 = "0" /\ Js.toString (-12) = "-12" /\ Js.natToString 305 = "305".
Proof. repeat split; reflexivity. Qed.

Example join_separator :
  Js.join ", " ["a"; "b"; "c"] = "a, b, c" /\ Js.join "" ["a"; "b"] = "ab".
Proof. split; reflexivity. Qed.

(** The record that refers to record 3 is attached to it and leaves the
    root list. *)
Example child_is_attached :
  let h := Literal.heapOf selfReferring in
  In 1 (childrenOf (fst (linkReferences (H:=Literal.host) h [0; 1; 2] (Literal.matching "3"))) 0)
  /\ ~ In 1 (snd (linkReferences (H:=Literal.host) h [0; 1; 2] (Literal.matching "3"))).
Proof.
  vm_compute. split; [auto|]. intros [Hx|[]]. discriminate.
Qed.
